(** * ncdownloader: listing, reconciliation and transfer of a WebDAV share

    A shallow embedding of [ncdownloader.py].  Python dictionaries are finite
    maps from key strings to dynamically typed values, exceptions are an
    explicit outcome type, and the functions that touch the local file system
    run in a state monad over a model of the directory tree together with the
    log of the probes made.  Strings are byte strings (the UTF-8 encoding of
    the Python text). *)

From Stdlib Require Import ZArith Ascii String List Permutation.
From stdpp Require Import base tactics option list gmap strings pretty sorting.

Set Warnings "-register-all".

Local Open Scope string_scope.
Local Open Scope list_scope.
Local Open Scope Z_scope.

(** ** Python values, exceptions and outcomes *)

Inductive pyval : Type :=
| VStr (s : string)
| VInt (n : Z).

Global Instance pyval_eq_dec : EqDecision pyval.
Proof. solve_decision. Defined.

(** [a == b] on the values stored in an item: a text never equals a number. *)
Definition py_eq (a b : pyval) : bool := bool_decide (a = b).

Inductive exn : Type :=
| RuntimeError (msg : string)
| ExpatError
| IndexError
| AttributeError
| ValueError
| TypeError
| KeyError (key : string)
| FileNotFoundError
| FileExistsError
| NotADirectoryError
| IsADirectoryError.

Global Instance exn_eq_dec : EqDecision exn.
Proof. solve_decision. Defined.

(** A call returns, raises, or (for the recursive walk only) exhausts the
    recursion budget given to the model. *)
Inductive outcome (A : Type) : Type :=
| Ret (a : A)
| Raise (e : exn)
| OutOfFuel.

Arguments Ret {A} a.
Arguments Raise {A} e.
Arguments OutOfFuel {A}.

Definition obind {A B} (m : outcome A) (k : A → outcome B) : outcome B :=
  match m with
  | Ret a => k a
  | Raise e => Raise e
  | OutOfFuel => OutOfFuel
  end.

Declare Scope py_scope.
Delimit Scope py_scope with py.
Notation "'let!' x ':=' m 'in' k" := (obind m (λ x, k))
  (at level 10, x name, m at level 100, k at level 200) : py_scope.
Notation "'let!' ' p ':=' m 'in' k" :=
  (obind m (λ x, match x with p => k end))
  (at level 10, p pattern, m at level 100, k at level 200) : py_scope.
Local Open Scope py_scope.

Definition of_option {A} (o : option A) (e : exn) : outcome A :=
  match o with Some a => Ret a | None => Raise e end.

(** ** Strings *)

Module Str.

Definition dq : string := String "034"%char "".
Definition nl : string := String "010"%char "".

(** [s[n:]] *)
Fixpoint drop (n : nat) (s : string) : string :=
  match n, s with
  | O, _ => s
  | S n', String _ s' => drop n' s'
  | S _, EmptyString => EmptyString
  end.

Definition startswith (s pre : string) : bool := String.prefix pre s.

Definition endswith (s suf : string) : bool :=
  String.prefix (String.rev suf) (String.rev s).

Definition to_list (s : string) : list ascii := list_ascii_of_string s.
Definition of_list (l : list ascii) : string := string_of_list_ascii l.

(** [s.rstrip(c)] for a single character [c]. *)
Fixpoint lstrip_char (c : ascii) (s : string) : string :=
  match s with
  | String a s' => if Ascii.eqb a c then lstrip_char c s' else s
  | EmptyString => EmptyString
  end.

Definition rstrip_char (c : ascii) (s : string) : string :=
  String.rev (lstrip_char c (String.rev s)).

(** [s.split(c)]: the pieces between the occurrences of [c]; never empty. *)
Fixpoint split_go (c : ascii) (cur : string) (s : string) : list string :=
  match s with
  | EmptyString => [String.rev cur]
  | String a s' =>
      if Ascii.eqb a c then String.rev cur :: split_go c "" s'
      else split_go c (String a cur) s'
  end.

Definition split (c : ascii) (s : string) : list string := split_go c "" s.

Definition concat (l : list string) : string := fold_right String.append "" l.

End Str.

(** ** [int(text)]

    Python's [int] on a text: surrounding white space is dropped, one sign is
    allowed, and the digits may be grouped by single underscores.  Digits
    outside ASCII are not covered by the model (they are refused). *)

Module PyInt.

Definition digit (c : ascii) : option Z :=
  let n := Z.of_N (N_of_ascii c) in
  if (48 <=? n) && (n <=? 57) then Some (n - 48) else None.

Definition is_space (c : ascii) : bool :=
  let n := N_of_ascii c in
  ((9 <=? n) && (n <=? 13))%N || (n =? 32)%N || ((28 <=? n) && (n <=? 31))%N.

Fixpoint lstrip (s : list ascii) : list ascii :=
  match s with
  | c :: s' => if is_space c then lstrip s' else s
  | [] => []
  end.

Definition strip (s : list ascii) : list ascii :=
  rev (lstrip (rev (lstrip s))).

(** [digits acc after_digit s]: the value of a digit string in which an
    underscore may only stand between two digits. *)
Fixpoint digits (acc : Z) (after_digit : bool) (s : list ascii) : option Z :=
  match s with
  | [] => if after_digit then Some acc else None
  | c :: s' =>
      match digit c with
      | Some d => digits (10 * acc + d) true s'
      | None =>
          if Ascii.eqb c "_" && after_digit then
            match s' with
            | c' :: _ =>
                match digit c' with
                | Some _ => digits acc false s'
                | None => None
                end
            | [] => None
            end
          else None
      end
  end.

Definition of_string (s : string) : option Z :=
  match strip (Str.to_list s) with
  | [] => None
  | c :: s' =>
      if Ascii.eqb c "-" then Z.opp <$> digits 0 false s'
      else if Ascii.eqb c "+" then digits 0 false s'
      else digits 0 false (c :: s')
  end.

End PyInt.

(** [int(v)] for a stored value: a number is returned as it is. *)
Definition py_int (v : pyval) : outcome Z :=
  match v with
  | VInt n => Ret n
  | VStr s => of_option (PyInt.of_string s) ValueError
  end.

(** [for x in l: s = body(s, x)], stopping at the first exception. *)
Fixpoint for_each {A S : Type} (body : S → A → outcome S) (l : list A) (s : S)
  : outcome S :=
  match l with
  | [] => Ret s
  | x :: l' => let! s' := body s x in for_each body l' s'
  end.

(** ** The document tree built by [minidom]

    Only what the program reads is kept: element names, children in document
    order, and the [data] of text-like nodes. *)

Inductive node : Type :=
| Element (tagName : string) (childNodes : list node)
| Text (data : string)
| Comment (data : string).

Module Dom.

(** The element itself when it carries the name, then its descendants, in
    document order. *)
Fixpoint elements_by_tag (name : string) (n : node) : list node :=
  match n with
  | Element t kids =>
      (if bool_decide (name = "*") || bool_decide (t = name) then [n] else [])
        ++ flat_map (elements_by_tag name) kids
  | _ => []
  end.

Definition children (n : node) : list node :=
  match n with
  | Element _ kids => kids
  | _ => []
  end.

(** [parent.getElementsByTagName(name)]: descendants only. *)
Definition getElementsByTagName (parent : node) (name : string) : list node :=
  flat_map (elements_by_tag name) (children parent).

Definition firstChild (n : node) : option node := head (children n).

(** [n.data]; an element has no such attribute. *)
Definition data_of (n : node) : outcome string :=
  match n with
  | Text d | Comment d => Ret d
  | Element _ _ => Raise AttributeError
  end.

(** [l[0]] *)
Definition first {A} (l : list A) : outcome A := of_option (head l) IndexError.

(** [o.data] where [o] may be [None]. *)
Definition data_of_opt (o : option node) : outcome string :=
  match o with
  | Some n => data_of n
  | None => Raise AttributeError
  end.

End Dom.

(** ** Remote items and the listing parser *)

Abbreviation item := (gmap string pyval).

Definition LEN_PATH_PREF : nat := String.length "/public.php/webdav".
Definition CODE_SUCCESS : Z := 207.

Definition PROPFIND_REQUEST : string :=
  Str.concat
    [ "<?xml version="; Str.dq; "1.0"; Str.dq; " encoding="; Str.dq; "UTF-8";
      Str.dq; "?>"; Str.nl;
      "<d:propfind xmlns:d="; Str.dq; "DAV:"; Str.dq; ">"; Str.nl;
      "    <d:prop xmlns:oc="; Str.dq; "http://owncloud.org/ns"; Str.dq; ">";
      Str.nl;
      "        <d:getlastmodified/>"; Str.nl;
      "        <d:getcontentlength/>"; Str.nl;
      "        <d:getcontenttype/>"; Str.nl;
      "    </d:prop>"; Str.nl;
      "</d:propfind>" ].

(** The body of the inner loop of [parse_propfind_response]: one property. *)
Definition parse_field (response : node) (it : item) (field : string)
  : outcome item :=
  let! el := Dom.first (Dom.getElementsByTagName response ("d:get" +:+ field)) in
  match Dom.firstChild el with
  | Some n => let! d := Dom.data_of n in Ret (<[field := VStr d]> it)
  | None => Ret it
  end.

(** The body of the outer loop: the item of one [d:response] element. *)
Definition parse_entry (response : node) : outcome item :=
  let! href := Dom.first (Dom.getElementsByTagName response "d:href") in
  let! d := Dom.data_of_opt (Dom.firstChild href) in
  let it : item := {[ "path" := VStr (Str.drop LEN_PATH_PREF d) ]} in
  let! it := for_each (parse_field response)
                      ["lastmodified"; "contentlength"; "contenttype"] it in
  match it !! "contentlength" with
  | Some v => let! n := py_int v in Ret (<["contentlength" := VInt n]> it)
  | None => Ret it
  end.

(** The loop over the [d:response] elements of a parsed document. *)
Definition parse_document (dom : node) : outcome (list item) :=
  for_each (λ res response, let! it := parse_entry response in Ret (res ++ [it]))
           (Dom.getElementsByTagName dom "d:response") [].

(** ** Paths: [os.path.join], [os.path.dirname], [urllib.parse.unquote] *)

Module Path.

Definition sep : string := "/".

(** [os.path.join(a, b)] *)
Definition join (a b : string) : string :=
  if Str.startswith b sep then b
  else if bool_decide (a = "") || Str.endswith a sep then a +:+ b
  else a +:+ sep +:+ b.

(** The part of [p] up to and including its last separator. *)
Fixpoint head_go (rev_p : string) : string :=
  match rev_p with
  | String c rest => if Ascii.eqb c "/" then rev_p else head_go rest
  | EmptyString => EmptyString
  end.

(** [os.path.dirname(p)] *)
Definition dirname (p : string) : string :=
  let head := String.rev (head_go (String.rev p)) in
  if bool_decide (Str.rstrip_char "/" head = "") then head
  else Str.rstrip_char "/" head.

Definition hexval (c : ascii) : option N :=
  let n := N_of_ascii c in
  if ((48 <=? n) && (n <=? 57))%N then Some (n - 48)%N
  else if ((65 <=? n) && (n <=? 70))%N then Some (n - 55)%N
  else if ((97 <=? n) && (n <=? 102))%N then Some (n - 87)%N
  else None.

(** [urllib.parse.unquote(s)] on the bytes of [s]: every [%XY] with two
    hexadecimal digits becomes the byte it names, anything else is kept.
    The replacement of byte sequences that are not UTF-8 is not modelled. *)
Fixpoint unquote (s : string) : string :=
  match s with
  | EmptyString => EmptyString
  | String c s' =>
      if Ascii.eqb c "%" then
        match s' with
        | String a (String b rest) =>
            match hexval a, hexval b with
            | Some x, Some y => String (ascii_of_N (16 * x + y)) (unquote rest)
            | _, _ => String c (unquote s')
            end
        | _ => String c (unquote s')
        end
      else String c (unquote s')
  end.

End Path.

(** ** The local file system

    A snapshot maps the location of every file and directory, a list of path
    components below the working directory, to what is there.  The working
    directory itself (the empty location) always is a directory, and the model
    resolves absolute paths from it as well. *)

Inductive fsnode : Type :=
| FsFile (content : string)
| FsDir.

Abbreviation filesystem := (gmap (list string) fsnode).

Module Fs.

Definition kind (fs : filesystem) (loc : list string) : option fsnode :=
  match loc with
  | [] => Some FsDir
  | _ => fs !! loc
  end.

(** Follow the components [rest] from the location [cur]; every location
    stepped from has to be a directory. *)
Fixpoint walk_path (fs : filesystem) (cur rest : list string)
  : outcome (list string) :=
  match rest with
  | [] => Ret cur
  | c :: rest' =>
      match kind fs cur with
      | Some FsDir =>
          if bool_decide (c = "") || bool_decide (c = ".")
          then walk_path fs cur rest'
          else if bool_decide (c = "..")
          then walk_path fs (removelast cur) rest'
          else walk_path fs (cur ++ [c]) rest'
      | Some (FsFile _) => Raise NotADirectoryError
      | None => Raise FileNotFoundError
      end
  end.

Definition locate (fs : filesystem) (p : string) : outcome (list string) :=
  if bool_decide (p = "") then Raise FileNotFoundError
  else walk_path fs [] (Str.split "/" p).

Definition stat (fs : filesystem) (p : string) : outcome fsnode :=
  let! loc := locate fs p in of_option (kind fs loc) FileNotFoundError.

(** [os.path.isfile(p)] and [os.path.isdir(p)] swallow the errors. *)
Definition isfile (fs : filesystem) (p : string) : bool :=
  match stat fs p with
  | Ret (FsFile _) => true
  | _ => false
  end.

Definition isdir (fs : filesystem) (p : string) : bool :=
  match stat fs p with
  | Ret FsDir => true
  | _ => false
  end.

(** [os.path.getsize(p)]; the size a directory reports is left at 0, the
    program asks for sizes of regular files only. *)
Definition getsize (fs : filesystem) (p : string) : outcome Z :=
  let! n := stat fs p in
  match n with
  | FsFile c => Ret (Z.of_nat (String.length c))
  | FsDir => Ret 0
  end.

(** The name of [k] below [loc], when [k] is an entry of [loc]. *)
Fixpoint entry_name (loc k : list string) : option string :=
  match loc, k with
  | [], [n] => Some n
  | a :: loc', b :: k' => if bool_decide (a = b) then entry_name loc' k' else None
  | _, _ => None
  end.

(** [os.listdir(p)] *)
Definition listdir (fs : filesystem) (p : string) : outcome (list string) :=
  let! loc := locate fs p in
  match kind fs loc with
  | Some FsDir => Ret (omap (λ kv, entry_name loc kv.1) (map_to_list fs))
  | Some (FsFile _) => Raise NotADirectoryError
  | None => Raise FileNotFoundError
  end.

(** [os.makedirs(p, exist_ok=True)]: create what is missing along [p];
    what was created before a failure stays. *)
Fixpoint makedirs_go (fs : filesystem) (cur rest : list string)
  : outcome unit * filesystem :=
  match rest with
  | [] => (Ret (), fs)
  | c :: rest' =>
      match kind fs cur with
      | Some FsDir =>
          if bool_decide (c = "") || bool_decide (c = ".")
          then makedirs_go fs cur rest'
          else if bool_decide (c = "..")
          then makedirs_go fs (removelast cur) rest'
          else
            match fs !! (cur ++ [c]) with
            | None => makedirs_go (<[cur ++ [c] := FsDir]> fs) (cur ++ [c]) rest'
            | Some FsDir => makedirs_go fs (cur ++ [c]) rest'
            | Some (FsFile _) =>
                (Raise (match rest' with
                        | [] => FileExistsError
                        | _ => NotADirectoryError
                        end), fs)
            end
      | Some (FsFile _) => (Raise NotADirectoryError, fs)
      | None => (Raise FileNotFoundError, fs)
      end
  end.

Definition makedirs (fs : filesystem) (p : string) : outcome unit * filesystem :=
  if bool_decide (p = "") then (Raise FileNotFoundError, fs)
  else makedirs_go fs [] (Str.split "/" p).

(** [open(p, "wb")]: the location of the created or truncated file. *)
Definition open_wb (fs : filesystem) (p : string)
  : outcome (list string * filesystem) :=
  let! loc := locate fs p in
  match kind fs loc with
  | Some FsDir => Raise IsADirectoryError
  | _ => Ret (loc, <[loc := FsFile ""]> fs)
  end.

(** [file.write(data)] on the file opened at [loc]. *)
Definition write (fs : filesystem) (loc : list string) (data : string)
  : filesystem :=
  match fs !! loc with
  | Some (FsFile c) => <[loc := FsFile (c +:+ data)]> fs
  | _ => <[loc := FsFile data]> fs
  end.

End Fs.

(** ** Effects on the local file system

    The functions that touch the disk run over the current snapshot and the
    log of the probes made so far.  An exception leaves the state as it was
    when it was raised: nothing is rolled back. *)

Inductive probe : Type :=
| ProbeIsDir (p : string)
| ProbeListDir (p : string)
| ProbeIsFile (p : string)
| ProbeGetSize (p : string).

Record world : Type := World { w_fs : filesystem; w_probes : list probe }.

Definition io (A : Type) : Type := world → outcome A * world.

Definition io_ret {A} (a : A) : io A := λ w, (Ret a, w).

Definition io_bind {A B} (m : io A) (k : A → io B) : io B :=
  λ w, match m w with
       | (Ret a, w') => k a w'
       | (Raise e, w') => (Raise e, w')
       | (OutOfFuel, w') => (OutOfFuel, w')
       end.

Definition io_lift {A} (m : outcome A) : io A := λ w, (m, w).

Definition io_raise {A} (e : exn) : io A := io_lift (Raise e).

Notation "'let*' x ':=' m 'in' k" := (io_bind m (λ x, k))
  (at level 10, x name, m at level 100, k at level 200) : py_scope.

Fixpoint io_for_each {A S : Type} (body : S → A → io S) (l : list A) (s : S)
  : io S :=
  match l with
  | [] => io_ret s
  | x :: l' => let* s' := body s x in io_for_each body l' s'
  end.

Definition probed (pr : probe) (w : world) : world :=
  World (w_fs w) (w_probes w ++ [pr]).

Module Os.

Definition isdir (p : string) : io bool :=
  λ w, (Ret (Fs.isdir (w_fs w) p), probed (ProbeIsDir p) w).

Definition listdir (p : string) : io (list string) :=
  λ w, (Fs.listdir (w_fs w) p, probed (ProbeListDir p) w).

Definition isfile (p : string) : io bool :=
  λ w, (Ret (Fs.isfile (w_fs w) p), probed (ProbeIsFile p) w).

Definition getsize (p : string) : io Z :=
  λ w, (Fs.getsize (w_fs w) p, probed (ProbeGetSize p) w).

Definition makedirs (p : string) : io unit :=
  λ w, let '(r, fs') := Fs.makedirs (w_fs w) p in (r, World fs' (w_probes w)).

Definition open_wb (p : string) : io (list string) :=
  λ w, match Fs.open_wb (w_fs w) p with
       | Ret (loc, fs') => (Ret loc, World fs' (w_probes w))
       | Raise e => (Raise e, w)
       | OutOfFuel => (OutOfFuel, w)
       end.

Definition write (file : list string) (data : string) : io unit :=
  λ w, (Ret (), World (Fs.write (w_fs w) file data) (w_probes w)).

End Os.

(** ** Items as dictionaries *)

(** [x[key]] *)
Definition getitem (x : item) (key : string) : outcome pyval :=
  of_option (x !! key) (KeyError key).

(** [x[key]] used as a text: by a string method, or as a path. *)
Definition getitem_str (x : item) (key : string) (e : exn) : outcome string :=
  let! v := getitem x key in
  match v with
  | VStr s => Ret s
  | VInt _ => Raise e
  end.

(** ** The reconciler on a given file list *)

Definition check_dir_not_empty (path : string) : io bool :=
  let* d := Os.isdir path in
  if d then
    let* l := Os.listdir path in io_ret (negb (bool_decide (l = [])))
  else io_ret false.

Definition buckets : Type := list item * list item * list item.

(** The body of the loop of [check_files]; the state is
    [(new, mismatched, existing)]. *)
Definition check_file (acc : buckets) (x : item) : io buckets :=
  let '(new, mismatched, existing) := acc in
  let* dest := io_lift (getitem_str x "dest" TypeError) in
  let* present := Os.isfile dest in
  if present then
    let* size := Os.getsize dest in
    let x := <["filesize" := VInt size]> x in
    let* cl := io_lift (getitem x "contentlength") in
    if py_eq (VInt size) cl
    then io_ret (new, mismatched, existing ++ [x])
    else io_ret (new, mismatched ++ [x], existing)
  else io_ret (new ++ [x], mismatched, existing).

Definition check_files (files : list item) : io buckets :=
  io_for_each check_file files ([], [], []).

(** ** The transfer engine *)

Record response : Type := Response {
  status_code : Z;
  text : string;
  (** header names in lower case *)
  headers : gmap string string;
  (** the chunks handed out for a block size *)
  iter_content : Z → list string
}.

Record session : Type := Session {
  (** [session.request(method, url, data)] *)
  request : string → string → string → response;
  (** [session.get(url, stream=True)] *)
  get : string → response
}.

Definition webdav_url (host path : string) : string :=
  host +:+ "/public.php/webdav/" +:+ path.

Definition download_error (url : string) : exn :=
  RuntimeError ("Could not download file: " +:+ url).

(** [response.headers.get("content-length", 0)] *)
Definition advertised_length (r : response) : pyval :=
  default (VInt 0) (VStr <$> headers r !! "content-length").

(** The body of the chunk loop; the state is [progress_bar.n]. *)
Definition write_chunk (file : list string) (n : Z) (data : string) : io Z :=
  let n := n + Z.of_nat (String.length data) in
  let* _ := Os.write file data in
  io_ret n.

Definition download_file (s : session) (host path_share path_out : string)
  : io unit :=
  let url := webdav_url host path_share in
  let* _ := Os.makedirs (Path.dirname path_out) in
  let response := get s url in
  let* total_size := io_lift (py_int (advertised_length response)) in
  let block_size := 1024 in
  let* file := Os.open_wb path_out in
  let* n := io_for_each (write_chunk file) (iter_content response block_size) 0 in
  if negb (total_size =? 0) && negb (n =? total_size)
  then io_raise (download_error url)
  else io_ret ().

(** ** Sorting by path: [sorted(files, key=lambda x: x['path'])] *)

(** [[f(x) for x in l]], stopping at the first exception. *)
Fixpoint map_each {A B : Type} (f : A → outcome B) (l : list A)
  : outcome (list B) :=
  match l with
  | [] => Ret []
  | x :: l' => let! y := f x in let! ys := map_each f l' in Ret (y :: ys)
  end.

(** [[x for x in l if p(x)]] *)
Fixpoint filter_each {A : Type} (p : A → outcome bool) (l : list A)
  : outcome (list A) :=
  match l with
  | [] => Ret []
  | x :: l' =>
      let! b := p x in
      let! xs := filter_each p l' in
      Ret (if b then x :: xs else xs)
  end.

Module Sort.

(** Put [x] in front of the first element whose key is not smaller. *)
Fixpoint insert {A} (x : string * A) (l : list (string * A))
  : list (string * A) :=
  match l with
  | [] => [x]
  | y :: l' => if String.leb x.1 y.1 then x :: l else y :: insert x l'
  end.

(** The stable sort by key. *)
Definition sort {A} (l : list (string * A)) : list (string * A) :=
  fold_right insert [] l.

End Sort.

(** The keys are read first; the paths of a listing are texts, so keys are
    compared as texts. *)
Definition sorted_by_path (files : list item) : outcome (list item) :=
  let! keyed := map_each (λ x, let! k := getitem_str x "path" TypeError in
                               Ret (k, x)) files in
  Ret (map snd (Sort.sort keyed)).

Record arguments : Type := Arguments {
  output : string;
  (** [None] without a [-g] option, the list of patterns otherwise *)
  glob : option (list string)
}.

(** [x['dest'] = urllib.parse.unquote(os.path.join(args.output, x['path'][1:]))] *)
Definition set_dest (out : string) (x : item) : outcome item :=
  let! p := getitem_str x "path" TypeError in
  Ret (<["dest" := VStr (Path.unquote (Path.join out (Str.drop 1 p)))]> x).

Section Downloader.

(** The two library functions the program relies on: the XML parser
    ([minidom.parseString] on the text encoded with character references,
    [None] when the text is not well-formed) and the pattern matcher
    ([fnmatch.fnmatch name pattern]). *)
Variable parseString : string → option node.
Variable fnmatch : string → string → bool.

Definition parse_propfind_response (text : string) : outcome (list item) :=
  let! dom := of_option (parseString text) ExpatError in
  parse_document dom.

Definition listing_error (url : string) (r : response) : exn :=
  RuntimeError ("Unexpected response from " +:+ url +:+ Str.nl
                +:+ " Status code: " +:+ pretty (status_code r) +:+ Str.nl
                +:+ " Message:" +:+ Str.nl +:+ text r).

Definition list_dir (s : session) (host path : string) : outcome (list item) :=
  let url := webdav_url host path in
  let r := request s "PROPFIND" url PROPFIND_REQUEST in
  if negb (status_code r =? CODE_SUCCESS) then Raise (listing_error url r)
  else
    let! res := parse_propfind_response (text r) in
    Ret (drop 1 res).

(** The body of the loop of [walk_dir]; [walk] is the recursive call. *)
Definition walk_entry (walk : string → outcome (list item))
    (files : list item) (x : item) : outcome (list item) :=
  let! p := getitem_str x "path" AttributeError in
  if Str.endswith p "/" then
    let! sub := walk p in Ret (files ++ sub)
  else Ret (files ++ [x]).

(** [fuel] bounds the depth of the recursion. *)
Fixpoint walk_dir (fuel : nat) (s : session) (host path : string)
  : outcome (list item) :=
  match fuel with
  | O => OutOfFuel
  | S fuel' =>
      let! listing := list_dir s host path in
      for_each (walk_entry (walk_dir fuel' s host)) listing []
  end.

Fixpoint glob_filter (path : string) (globs : list string) : bool :=
  match globs with
  | [] => false
  | g :: globs' => if fnmatch path g then true else glob_filter path globs'
  end.

(** [if args.glob:] holds for a list with at least one pattern. *)
Definition filter_globs (a : arguments) (files : list item)
  : outcome (list item) :=
  match glob a with
  | Some (g :: gs) =>
      filter_each (λ x, let! d := getitem_str x "dest" TypeError in
                        Ret (glob_filter d (g :: gs))) files
  | _ => Ret files
  end.

(** Lines 152 to 166 of [get_file_lists], on the walked files. *)
Definition reconcile (a : arguments) (walked : list item) : io buckets :=
  let* files := io_lift (sorted_by_path walked) in
  let* files := io_lift (map_each (set_dest (output a)) files) in
  let* files := io_lift (filter_globs a files) in
  let* nonempty := check_dir_not_empty (output a) in
  if nonempty then check_files files
  else io_ret (files, [], []).

Definition get_file_lists (fuel : nat) (s : session) (host_url path : string)
    (a : arguments) : io buckets :=
  let* walked := io_lift (walk_dir fuel s host_url path) in
  reconcile a walked.

End Downloader.

(** * Console helpers *)

(** ** Formatting of paths: [path_fmt] *)

Module Fmt.

(** [s[k:]] for any integer [k]. *)
Definition slice_from (k : Z) (s : string) : string :=
  let n := Z.of_nat (String.length s) in
  Str.drop (Z.to_nat (if k <? 0 then Z.max (n + k) 0 else k)) s.

Fixpoint spaces (n : nat) : string :=
  match n with
  | O => ""
  | S n' => String " " (spaces n')
  end.

(** [s.ljust(width)] *)
Definition ljust (width : Z) (s : string) : string :=
  s +:+ spaces (Z.to_nat (width - Z.of_nat (String.length s))).

End Fmt.

Definition path_fmt (path : string) (desc_len : Z) (desc_pref : string) : string :=
  if Z.of_nat (String.length path) <? desc_len
  then desc_pref +:+ Fmt.ljust desc_len path
  else desc_pref +:+ "..." +:+ Fmt.slice_from (- desc_len + 3) path.

(** ** Asking for confirmation: [query_yes_no]

    The console is the list of the lines still to be read and the list of
    the texts written so far.  Lower case is taken on ASCII letters. *)

Record console : Type := Console { stdin : list string; stdout : list string }.

Inductive asked : Type :=
| Answered (b : bool)
| AskFailed (e : exn)
| EndOfInput.

Module Ask.

Definition valid : gmap string bool :=
  {[ "yes" := true; "y" := true; "ye" := true; "no" := false; "n" := false ]}.

Definition lower_char (c : ascii) : ascii :=
  let n := N_of_ascii c in
  if ((65 <=? n) && (n <=? 90))%N then ascii_of_N (n + 32) else c.

Fixpoint lower (s : string) : string :=
  match s with
  | EmptyString => EmptyString
  | String c s' => String (lower_char c) (lower s')
  end.

(** The prompt for a default, [None] for a default that is refused. *)
Definition prompt_of (default : option string) : option string :=
  match default with
  | None => Some " [y/n] "
  | Some d =>
      if bool_decide (d = "yes") then Some " [Y/n] "
      else if bool_decide (d = "no") then Some " [y/N] "
      else None
  end.

Definition reminder : string :=
  "Please respond with 'yes' or 'no' (or 'y' or 'n')." +:+ Str.nl.

(** [valid[key]] *)
Definition answer (key : string) : asked :=
  match valid !! key with
  | Some b => Answered b
  | None => AskFailed (KeyError key)
  end.

(** The [while True] loop, one turn per line read. *)
Fixpoint loop (asking : string) (default : option string)
    (lines : list string) (out : list string) : asked * console :=
  let out := out ++ [asking] in
  match lines with
  | [] => (EndOfInput, Console [] out)
  | line :: rest =>
      let choice := lower line in
      match default with
      | Some d =>
          if bool_decide (choice = "") then (answer d, Console rest out)
          else if bool_decide (is_Some (valid !! choice))
          then (answer choice, Console rest out)
          else loop asking default rest (out ++ [reminder])
      | None =>
          if bool_decide (is_Some (valid !! choice))
          then (answer choice, Console rest out)
          else loop asking default rest (out ++ [reminder])
      end
  end.

End Ask.

Definition query_yes_no (question : string) (default : option string)
    (con : console) : asked * console :=
  match Ask.prompt_of default with
  | None => (AskFailed ValueError, con)
  | Some prompt => Ask.loop (question +:+ prompt) default (stdin con) (stdout con)
  end.

(** * Remote trees

    What a share looks like to the walker: files, and directories whose
    listing (once the entry of the directory itself is left out) gives the
    entries of their children. *)

Inductive rtree : Type :=
| RFile (x : item)
| RDir (x : item) (kids : list rtree).

Module Tree.

Definition entry (t : rtree) : item :=
  match t with
  | RFile x | RDir x _ => x
  end.

(** The items of the files below [t], in listing order. *)
Fixpoint leaves (t : rtree) : list item :=
  match t with
  | RFile x => [x]
  | RDir _ kids => flat_map leaves kids
  end.

(** The number of listings on the longest way down. *)
Fixpoint depth (t : rtree) : nat :=
  match t with
  | RFile _ => 0
  | RDir _ kids => S (list_max (map depth kids))
  end.

Definition is_file_item (x : item) : Prop :=
  ∃ p, x !! "path" = Some (VStr p) ∧ Str.endswith p "/" = false.

(** [listing] answers for every directory of the tree with its children;
    directories, and only they, have a path that ends in the separator. *)
Fixpoint served (listing : string → outcome (list item)) (t : rtree) : Prop :=
  match t with
  | RFile x => is_file_item x
  | RDir x kids =>
      (∃ p, x !! "path" = Some (VStr p) ∧ Str.endswith p "/" = true
            ∧ listing p = Ret (map entry kids))
      ∧ fold_right (λ k P, served listing k ∧ P) True kids
  end.

End Tree.

(** * A small share

    The share used in the examples: a file [/a.txt] of 10 bytes and a
    directory [/sub/] holding [/sub/b.txt] of 20 bytes. *)

Module Share.

Definition content (t : option string) : list node :=
  match t with
  | Some d => [Text d]
  | None => []
  end.

(** One [d:response] element as the server writes it. *)
Definition entry (href : string) (lm cl ct : option string) : node :=
  Element "d:response"
    [ Element "d:href" [Text href];
      Element "d:propstat"
        [ Element "d:prop"
            [ Element "d:getlastmodified" (content lm);
              Element "d:getcontentlength" (content cl);
              Element "d:getcontenttype" (content ct) ];
          Element "d:status" [Text "HTTP/1.1 200 OK"] ] ].

Definition multistatus (entries : list node) : node :=
  Element "#document" [Element "d:multistatus" entries].

Definition stamp : string := "Mon, 01 Jan 2024 00:00:00 GMT".

Definition dir_entry (href : string) : node :=
  entry href (Some stamp) None None.

Definition file_entry (href : string) (size : string) : node :=
  entry href (Some stamp) (Some size) (Some "text/plain").

Definition root_dom : node :=
  multistatus [ dir_entry "/public.php/webdav/";
                file_entry "/public.php/webdav/a.txt" "10";
                dir_entry "/public.php/webdav/sub/" ].

Definition sub_dom : node :=
  multistatus [ dir_entry "/public.php/webdav/sub/";
                file_entry "/public.php/webdav/sub/b.txt" "20" ].

(** The parser on the two response bodies of the share. *)
Definition parseString (text : string) : option node :=
  if bool_decide (text = "<listing of />") then Some root_dom
  else if bool_decide (text = "<listing of /sub/>") then Some sub_dom
  else None.

Definition host : string := "https://cloud.example".

Definition no_stream : Z → list string := λ _, [].

Definition listing (url : string) : response :=
  if bool_decide (url = webdav_url host "/")
  then Response 207 "<listing of />" ∅ no_stream
  else if bool_decide (url = webdav_url host "/sub/")
  then Response 207 "<listing of /sub/>" ∅ no_stream
  else Response 404 "Not Found" ∅ no_stream.

(** A download that advertises [advertised] and delivers [chunks]. *)
Definition download (advertised : option string) (chunks : list string)
  : response :=
  Response 200 ""
    (match advertised with
     | Some n => {[ "content-length" := n ]}
     | None => ∅
     end)
    (λ _, chunks).

Definition server (advertised : option string) (chunks : list string)
  : session :=
  Session (λ _ url _, listing url) (λ _, download advertised chunks).

(** The same share when the listing of [/sub/] is refused. *)
Definition refusing : session :=
  Session (λ _ url _,
             if bool_decide (url = webdav_url host "/")
             then Response 207 "<listing of />" ∅ no_stream
             else Response 403 "Forbidden" ∅ no_stream)
          (λ _, download None []).

Definition a_txt : item :=
  {[ "path" := VStr "/a.txt"; "lastmodified" := VStr stamp;
     "contentlength" := VInt 10; "contenttype" := VStr "text/plain" ]}.

Definition b_txt : item :=
  {[ "path" := VStr "/sub/b.txt"; "lastmodified" := VStr stamp;
     "contentlength" := VInt 20; "contenttype" := VStr "text/plain" ]}.

Definition sub_dir : item :=
  {[ "path" := VStr "/sub/"; "lastmodified" := VStr stamp ]}.

Definition root_dir : item :=
  {[ "path" := VStr "/"; "lastmodified" := VStr stamp ]}.

Definition tree : rtree :=
  RDir root_dir [RFile a_txt; RDir sub_dir [RFile b_txt]].

(** A matcher for the patterns of the examples: a pattern [*suffix]
    matches the names that end in [suffix], any other pattern matches
    itself. *)
Definition fnmatch (name pattern : string) : bool :=
  match pattern with
  | String "*" suffix => Str.endswith name suffix
  | _ => bool_decide (name = pattern)
  end.

Definition empty_disk : world := World ∅ [].

(** An output directory [out] from an earlier run: [a.txt] is complete,
    [sub/b.txt] holds 5 of its 20 bytes. *)
Definition resumed_fs : filesystem :=
  {[ ["out"] := FsDir;
     ["out"; "a.txt"] := FsFile "0123456789";
     ["out"; "sub"] := FsDir;
     ["out"; "sub"; "b.txt"] := FsFile "01234" ]}.

Definition resumed : world := World resumed_fs [].

Definition to_out : arguments := Arguments "out" None.

Definition only_a_txt : arguments := Arguments "out" (Some ["*/a.txt"; "*.md"]).

Definition with_dest (d : string) (x : item) : item := <["dest" := VStr d]> x.

Definition ten_bytes : string := "0123456789".

Definition fifty_bytes : string :=
  Str.concat [ten_bytes; ten_bytes; ten_bytes; ten_bytes; ten_bytes].

(** The output directory once [out] has been made. *)
Definition out_made : filesystem := {[ ["out"] := FsDir ]}.

(** An entry the server wrote without a content type element. *)
Definition untyped : node :=
  Element "d:response"
    [ Element "d:href" [Text "/public.php/webdav/a.txt"];
      Element "d:propstat"
        [ Element "d:prop"
            [ Element "d:getlastmodified" [Text stamp];
              Element "d:getcontentlength" [Text "10"] ] ] ].

(** The entry of the directory [/sub/], had it reached the file list. *)
Definition stray : item := with_dest "out/a.txt" sub_dir.

(** An entry whose content length carries a sign. *)
Definition owing : node := file_entry "/public.php/webdav/owing.txt" "-5".

End Share.

(** * Properties *)

(** ** Outcomes and loops *)

Lemma obind_ret {A B} (m : outcome A) (k : A → outcome B) (b : B) :
  obind m k = Ret b ↔ ∃ a, m = Ret a ∧ k a = Ret b.
Proof.
  split.
  - destruct m as [a | e |]; simpl; intros H; try discriminate. eauto.
  - intros (a & -> & H). exact H.
Qed.

Lemma obind_raise {A B} (m : outcome A) (k : A → outcome B) (e : exn) :
  obind m k = Raise e ↔ m = Raise e ∨ ∃ a, m = Ret a ∧ k a = Raise e.
Proof.
  split.
  - destruct m as [a | e' |]; simpl; intros H; try discriminate.
    + right. eauto.
    + left. by injection H as ->.
  - intros [-> | (a & -> & H)]; [reflexivity | exact H].
Qed.

Lemma map_each_ret {A B} (f : A → outcome B) (l : list A) (ys : list B) :
  map_each f l = Ret ys ↔ Forall2 (λ x y, f x = Ret y) l ys.
Proof.
  revert ys. induction l as [| x l IH]; intros ys; simpl.
  - split.
    + intros [= <-]. constructor.
    + intros H. inversion H. reflexivity.
  - rewrite obind_ret. split.
    + intros (y & Hy & H). apply obind_ret in H as (ys' & Hys & [= <-]).
      constructor; [exact Hy | by apply IH].
    + intros H. inversion H as [| ? y ? ys' Hy Hys]; subst.
      exists y. split; [exact Hy |]. apply IH in Hys. by rewrite Hys.
Qed.

Lemma map_each_total {A B} (f : A → outcome B) (l : list A) :
  Forall (λ x, ∃ y, f x = Ret y) l → ∃ ys, map_each f l = Ret ys.
Proof.
  induction 1 as [| x l [y Hy] _ [ys Hys]]; simpl.
  - by exists [].
  - exists (y :: ys). by rewrite Hy, Hys.
Qed.

(** A loop that appends one result per element is a [map_each]. *)
Lemma for_each_append {A B} (f : A → outcome B) (l : list A) (acc : list B) :
  for_each (λ res x, let! y := f x in Ret (res ++ [y])) l acc
  = let! ys := map_each f l in Ret (acc ++ ys).
Proof.
  revert acc. induction l as [| x l IH]; intros acc; simpl.
  - by rewrite app_nil_r.
  - destruct (f x) as [y | e |]; simpl; try reflexivity.
    rewrite IH. destruct (map_each f l) as [ys | e |]; simpl; try reflexivity.
    by rewrite <- app_assoc.
Qed.

Lemma parse_document_map_each (dom : node) :
  parse_document dom
  = map_each parse_entry (Dom.getElementsByTagName dom "d:response").
Proof.
  unfold parse_document. rewrite for_each_append.
  by destruct (map_each _ _).
Qed.

(** ** The parser on one entry *)

Module Entry.

(** The text of a property of the entry: [None] when the entry has no
    usable element for it, [Some None] when the element is empty. *)
Definition text_of (el : node) : option (option string) :=
  match Dom.firstChild el with
  | None => Some None
  | Some (Text d) | Some (Comment d) => Some (Some d)
  | Some (Element _ _) => None
  end.

Definition prop_text (e : node) (field : string) : option (option string) :=
  el ← head (Dom.getElementsByTagName e ("d:get" +:+ field)); text_of el.

Definition href_text (e : node) : option string :=
  el ← head (Dom.getElementsByTagName e "d:href"); mjoin (text_of el).

(** An entry the parser accepts: an href with a text, the three property
    elements (empty or with a text), and a content length that reads as an
    integer. *)
Record well_formed (e : node) : Prop := WellFormed {
  wf_href : is_Some (href_text e);
  wf_lastmodified : is_Some (prop_text e "lastmodified");
  wf_contentlength :
    ∃ cl, prop_text e "contentlength" = Some cl
          ∧ ∀ s, cl = Some s → is_Some (PyInt.of_string s);
  wf_contenttype : is_Some (prop_text e "contenttype")
}.

(** The integer a content-length text is read as: [None] when the text is
    not an integer, [Some None] when there is no text. *)
Definition length_of (cl : option string) : option (option Z) :=
  match cl with
  | Some s => Some <$> PyInt.of_string s
  | None => Some None
  end.

End Entry.

Lemma parse_field_text (e : node) (it : item) (field : string) (t : option string) :
  Entry.prop_text e field = Some t →
  parse_field e it field
  = Ret (match t with Some d => <[field := VStr d]> it | None => it end).
Proof.
  unfold Entry.prop_text, parse_field, Dom.first.
  destruct (head _) as [el |]; simpl; [| discriminate].
  unfold Entry.text_of. destruct (Dom.firstChild el) as [[| d | d] |]; simpl;
    intros [= <-]; reflexivity.
Qed.

Lemma parse_entry_href (e : node) (it : item) :
  parse_entry e = Ret it → ∃ d, Entry.href_text e = Some d
                                ∧ it !! "path" = Some (VStr (Str.drop LEN_PATH_PREF d)).
Proof.
  unfold parse_entry, Entry.href_text, Dom.first.
  destruct (head (Dom.getElementsByTagName e "d:href")) as [el |]; simpl;
    [| discriminate].
  unfold Entry.text_of, Dom.data_of_opt.
  destruct (Dom.firstChild el) as [[| d | d] |]; simpl; try discriminate.
  all: intros H; exists d; split; [reflexivity |].
  all: repeat (apply obind_ret in H as (? & Hf & H));
       unfold parse_field in *;
       repeat match goal with
       | H : obind _ _ = Ret _ |- _ => apply obind_ret in H as (? & ? & H)
       | H : match ?o with _ => _ end = Ret _ |- _ =>
           destruct o eqn:?; simplify_eq/=
       end;
       by simplify_map_eq.
Qed.

Definition item_keys : list string :=
  ["path"; "lastmodified"; "contentlength"; "contenttype"].

(** What [parse_entry] builds from the texts of an entry, before the content
    length is converted. *)
Definition raw_item (hd : string) (lm cl ct : option string) : item :=
  let it : item := {[ "path" := VStr (Str.drop LEN_PATH_PREF hd) ]} in
  let it := match lm with Some d => <["lastmodified" := VStr d]> it | None => it end in
  let it := match cl with Some d => <["contentlength" := VStr d]> it | None => it end in
  match ct with Some d => <["contenttype" := VStr d]> it | None => it end.

Lemma raw_item_lookup (hd : string) (lm cl ct : option string) :
  raw_item hd lm cl ct !! "path" = Some (VStr (Str.drop LEN_PATH_PREF hd))
  ∧ raw_item hd lm cl ct !! "lastmodified" = VStr <$> lm
  ∧ raw_item hd lm cl ct !! "contentlength" = VStr <$> cl
  ∧ raw_item hd lm cl ct !! "contenttype" = VStr <$> ct
  ∧ ∀ k, k ∉ item_keys → raw_item hd lm cl ct !! k = None.
Proof.
  unfold raw_item, item_keys.
  destruct lm, cl, ct; simpl; repeat split; try by simplify_map_eq.
  all: intros k Hk; repeat rewrite lookup_insert_ne by set_solver;
       apply lookup_singleton_ne; set_solver.
Qed.

Lemma parse_entry_raw (e : node) (hd : string) (lm cl ct : option string) :
  Entry.href_text e = Some hd →
  Entry.prop_text e "lastmodified" = Some lm →
  Entry.prop_text e "contentlength" = Some cl →
  Entry.prop_text e "contenttype" = Some ct →
  parse_entry e
  = match cl with
    | Some s =>
        let! n := py_int (VStr s) in
        Ret (<["contentlength" := VInt n]> (raw_item hd lm cl ct))
    | None => Ret (raw_item hd lm cl ct)
    end.
Proof.
  intros Hh Hlm Hcl Hct. unfold parse_entry.
  unfold Entry.href_text in Hh. unfold Dom.first.
  destruct (head (Dom.getElementsByTagName e "d:href")) as [el |];
    simpl in Hh; [| discriminate].
  assert (Dom.data_of_opt (Dom.firstChild el) = Ret hd) as Hd.
  { unfold Entry.text_of, Dom.data_of_opt in *.
    destruct (Dom.firstChild el) as [[| d | d] |]; simpl in *; congruence. }
  unfold of_option, obind at 1. rewrite Hd. unfold obind at 1.
  assert (for_each (parse_field e)
            ["lastmodified"; "contentlength"; "contenttype"]
            {[ "path" := VStr (Str.drop LEN_PATH_PREF hd) ]}
          = Ret (raw_item hd lm cl ct)) as ->.
  { simpl. rewrite (parse_field_text _ _ _ _ Hlm). simpl.
    rewrite (parse_field_text _ _ _ _ Hcl). simpl.
    by rewrite (parse_field_text _ _ _ _ Hct). }
  unfold obind at 1.
  pose proof (raw_item_lookup hd lm cl ct) as (_ & _ & -> & _).
  by destruct cl.
Qed.

Lemma parse_entry_well_formed (e : node) :
  Entry.well_formed e → ∃ it, parse_entry e = Ret it.
Proof.
  intros [[hd Hh] [lm Hlm] (cl & Hcl & Hint) [ct Hct]].
  rewrite (parse_entry_raw e hd lm cl ct) by done.
  destruct cl as [s |]; [| by eauto].
  destruct (Hint s eq_refl) as [n Hn]. simpl. rewrite Hn. simpl. eauto.
Qed.

(** ** Claims on the parser *)

Section Parser.

Variable parseString : string → option node.

Lemma parse_propfind_response_well_formed (text : string) (dom : node) :
  parseString text = Some dom →
  Forall Entry.well_formed (Dom.getElementsByTagName dom "d:response") →
  ∃ res, parse_propfind_response parseString text = Ret res.
Proof.
  intros Hdom Hwf. unfold parse_propfind_response. rewrite Hdom. simpl.
  rewrite parse_document_map_each. apply map_each_total.
  eapply Forall_impl; [exact Hwf |]. apply parse_entry_well_formed.
Qed.

Lemma parse_propfind_response_entries (text : string) (dom : node) res :
  parseString text = Some dom →
  parse_propfind_response parseString text = Ret res →
  Forall2 (λ e it, parse_entry e = Ret it)
          (Dom.getElementsByTagName dom "d:response") res.
Proof.
  intros Hdom. unfold parse_propfind_response. rewrite Hdom. simpl.
  rewrite parse_document_map_each. apply map_each_ret.
Qed.

Lemma list_dir_success (s : session) (host path : string) :
  let r := request s "PROPFIND" (webdav_url host path) PROPFIND_REQUEST in
  status_code r = CODE_SUCCESS →
  list_dir parseString s host path
  = let! res := parse_propfind_response parseString (text r) in Ret (drop 1 res).
Proof. intros r Hr. unfold list_dir. fold r. by rewrite Hr. Qed.

End Parser.

(** C7. A well-formed listing response with N entries parses to exactly N
    items, one per entry and in document order, the first entry (the queried
    directory itself) included; it is [list_dir], the caller, that leaves the
    first item out. *)
Theorem parser_keeps_every_entry (parseString : string → option node)
    (s : session) (host path : string) (dom : node) :
  let r := request s "PROPFIND" (webdav_url host path) PROPFIND_REQUEST in
  let entries := Dom.getElementsByTagName dom "d:response" in
  status_code r = CODE_SUCCESS →
  parseString (text r) = Some dom →
  Forall Entry.well_formed entries →
  ∃ res,
    parse_propfind_response parseString (text r) = Ret res
    ∧ length res = length entries
    ∧ Forall2 (λ e it,
        parse_entry e = Ret it
        ∧ ∃ d, Entry.href_text e = Some d
               ∧ it !! "path" = Some (VStr (Str.drop LEN_PATH_PREF d)))
        entries res
    ∧ list_dir parseString s host path = Ret (drop 1 res).
Proof.
  intros r entries Hr Hdom Hwf.
  destruct (parse_propfind_response_well_formed _ _ _ Hdom Hwf) as [res Hres].
  pose proof (parse_propfind_response_entries _ _ _ _ Hdom Hres) as Hall.
  exists res. repeat split.
  - exact Hres.
  - symmetry. by eapply Forall2_length.
  - eapply Forall2_impl; [exact Hall |]. intros e it He.
    split; [exact He | by apply parse_entry_href].
  - rewrite list_dir_success by exact Hr. fold r. by rewrite Hres.
Qed.

Lemma parser_keeps_every_entry_witness :
  ∃ res,
    parse_propfind_response Share.parseString "<listing of />" = Ret res
    ∧ length res = 3%nat
    ∧ list_dir Share.parseString (Share.server None []) Share.host "/"
      = Ret (drop 1 res).
Proof.
  destruct (parser_keeps_every_entry Share.parseString (Share.server None [])
              Share.host "/" Share.root_dom) as (res & H1 & H2 & _ & H4).
  - reflexivity.
  - reflexivity.
  - repeat constructor; vm_compute; eauto.
    all: eexists; split; [reflexivity |]; intros ? [= <-]; vm_compute; eauto.
  - exists res. auto.
Defined.

(** C6, as the code has it.  An entry whose three property elements are there
    yields an item in which a property is missing exactly when its element is
    empty; the two texts are stored as they are, and the content length, when
    present, is what [int] reads from its text: any integer, a negative one
    too.  A content length that is not an integer makes the parser fail. *)
Theorem parse_entry_optional_fields (e : node) (hd : string)
    (lm cl ct : option string) :
  Entry.href_text e = Some hd →
  Entry.prop_text e "lastmodified" = Some lm →
  Entry.prop_text e "contentlength" = Some cl →
  Entry.prop_text e "contenttype" = Some ct →
  (∀ n, Entry.length_of cl = Some n →
     ∃ it, parse_entry e = Ret it
           ∧ it !! "path" = Some (VStr (Str.drop LEN_PATH_PREF hd))
           ∧ it !! "lastmodified" = VStr <$> lm
           ∧ it !! "contentlength" = VInt <$> n
           ∧ it !! "contenttype" = VStr <$> ct
           ∧ ∀ k, k ∉ item_keys → it !! k = None)
  ∧ (Entry.length_of cl = None → parse_entry e = Raise ValueError).
Proof.
  intros Hh Hlm Hcl Hct.
  rewrite (parse_entry_raw e hd lm cl ct) by done.
  pose proof (raw_item_lookup hd lm cl ct) as (Hp & Hl & Hc & Ht & Hk).
  destruct cl as [s |]; simpl.
  - destruct (PyInt.of_string s) as [z |]; simpl.
    + split; [| discriminate]. intros n [= <-]. eexists. split; [reflexivity |].
      split; [by rewrite lookup_insert_ne |].
      split; [by rewrite lookup_insert_ne |].
      split; [by rewrite lookup_insert_eq |].
      split; [by rewrite lookup_insert_ne |].
      intros k Hk'. rewrite lookup_insert_ne.
      * by apply Hk.
      * intros <-. apply Hk'. unfold item_keys. set_solver.
    + split; [discriminate | done].
  - split; [| discriminate]. intros n [= <-]. eexists. split; [reflexivity |].
    repeat split; done.
Qed.

Lemma parse_entry_optional_fields_witness :
  ∃ it, parse_entry (Share.dir_entry "/public.php/webdav/sub/") = Ret it
        ∧ it !! "path" = Some (VStr "/sub/")
        ∧ it !! "contentlength" = None
        ∧ it !! "contenttype" = None.
Proof.
  destruct (parse_entry_optional_fields
              (Share.dir_entry "/public.php/webdav/sub/")
              "/public.php/webdav/sub/" (Some Share.stamp) None None)
    as [H _]; try reflexivity.
  destruct (H None eq_refl) as (it & H1 & H2 & _ & H4 & H5 & _).
  exists it. auto.
Defined.

(** C6 as stated fails: a content length with a minus sign is accepted and
    stored as a negative number. *)
Lemma parse_entry_negative_length :
  Entry.well_formed Share.owing
  ∧ ∃ it, parse_entry Share.owing = Ret it
          ∧ it !! "contentlength" = Some (VInt (-5))
          ∧ ¬ (0 ≤ -5).
Proof.
  split.
  - repeat constructor; vm_compute; eauto.
    eexists; split; [reflexivity |]; intros ? [= <-]; vm_compute; eauto.
  - eexists. split; [vm_compute; reflexivity |]. split; [reflexivity | lia].
Qed.

(** ** The walker *)

Lemma for_each_raise_first {A S} (body : S → A → outcome S) (l : list A)
    (x : A) (l' : list A) (s s' : S) (e : exn) :
  for_each body l s = Ret s' → body s' x = Raise e →
  for_each body (l ++ x :: l') s = Raise e.
Proof.
  revert s. induction l as [| y l IH]; intros s; simpl.
  - intros [= ->] Hx. by rewrite Hx.
  - destruct (body s y) as [s1 | |]; simpl; try discriminate. apply IH.
Qed.

Lemma parse_field_raise (e : node) (it : item) (field : string) (ex : exn) :
  parse_field e it field = Raise ex → ex = IndexError ∨ ex = AttributeError.
Proof.
  unfold parse_field, Dom.first.
  destruct (head _) as [el |]; simpl; [| intros [= <-]; by left].
  destruct (Dom.firstChild el) as [[| d | d] |]; simpl; intros [= <-]; by right.
Qed.

Definition parse_failure (ex : exn) : Prop :=
  ex = ExpatError ∨ ex = IndexError ∨ ex = AttributeError ∨ ex = ValueError.

Lemma parse_entry_raise (e : node) (ex : exn) :
  parse_entry e = Raise ex → parse_failure ex.
Proof.
  unfold parse_entry, parse_failure, Dom.first. intros H.
  apply obind_raise in H as [H | (el & _ & H)].
  { destruct (head _); simplify_eq/=. auto. }
  apply obind_raise in H as [H | (d & _ & H)].
  { unfold Dom.data_of_opt, Dom.data_of in H.
    repeat case_match; simplify_eq/=; auto. }
  apply obind_raise in H as [H | (it & _ & H)].
  { simpl in H.
    repeat match goal with
    | H : obind _ _ = Raise _ |- _ => apply obind_raise in H as [H | (? & _ & H)]
    | H : parse_field _ _ _ = Raise _ |- _ =>
        apply parse_field_raise in H as [-> | ->]; auto
    end. discriminate. }
  destruct (it !! "contentlength") as [[s | n] |]; simpl in H; try discriminate.
  destruct (PyInt.of_string s); simplify_eq/=. auto.
Qed.

Lemma map_each_raise {A B} (f : A → outcome B) (l : list A) (e : exn) :
  map_each f l = Raise e → ∃ x, x ∈ l ∧ f x = Raise e.
Proof.
  induction l as [| x l IH]; simpl; [discriminate |].
  intros H. apply obind_raise in H as [H | (y & _ & H)].
  - exists x. split; [left | exact H].
  - apply obind_raise in H as [H | (ys & _ & H)]; [| discriminate].
    destruct (IH H) as (x' & Hin & Hx'). exists x'. split; [by right | done].
Qed.

Section Walker.

Variable parseString : string → option node.

Lemma parse_propfind_response_raise (text : string) (ex : exn) :
  parse_propfind_response parseString text = Raise ex → parse_failure ex.
Proof.
  unfold parse_propfind_response. intros H.
  apply obind_raise in H as [H | (dom & _ & H)].
  - destruct (parseString text); simplify_eq/=. by left.
  - rewrite parse_document_map_each in H.
    apply map_each_raise in H as (e & _ & H). by eapply parse_entry_raise.
Qed.

Lemma list_dir_failure (s : session) (host path : string) :
  let url := webdav_url host path in
  let r := request s "PROPFIND" url PROPFIND_REQUEST in
  status_code r ≠ CODE_SUCCESS →
  list_dir parseString s host path = Raise (listing_error url r).
Proof.
  intros url r Hr. unfold list_dir. fold url r.
  by destruct (Z.eqb_spec (status_code r) CODE_SUCCESS).
Qed.

Lemma list_dir_success_raise (s : session) (host path : string) (ex : exn) :
  status_code (request s "PROPFIND" (webdav_url host path) PROPFIND_REQUEST)
  = CODE_SUCCESS →
  list_dir parseString s host path = Raise ex → parse_failure ex.
Proof.
  intros Hr. rewrite list_dir_success by exact Hr. intros H.
  apply obind_raise in H as [H | (res & _ & H)]; [| discriminate].
  by eapply parse_propfind_response_raise.
Qed.

Lemma walk_dir_listing_raise (fuel : nat) (s : session) (host path : string)
    (e : exn) :
  list_dir parseString s host path = Raise e →
  walk_dir parseString (S fuel) s host path = Raise e.
Proof. intros H. simpl. by rewrite H. Qed.

(** A failure below ends the walk: the files gathered so far are dropped. *)
Lemma walk_dir_nested_raise (fuel : nat) (s : session) (host path : string)
    (before after : list item) (x : item) (p : string) (files : list item)
    (e : exn) :
  list_dir parseString s host path = Ret (before ++ x :: after) →
  for_each (walk_entry (walk_dir parseString fuel s host)) before [] = Ret files →
  x !! "path" = Some (VStr p) → Str.endswith p "/" = true →
  walk_dir parseString fuel s host p = Raise e →
  walk_dir parseString (S fuel) s host path = Raise e.
Proof.
  intros Hl Hb Hx Hp He. simpl. rewrite Hl. simpl.
  eapply for_each_raise_first; [exact Hb |].
  unfold walk_entry, getitem_str, getitem. rewrite Hx. simpl.
  rewrite Hp, He. reflexivity.
Qed.

End Walker.

(** C4. A listing request fails with the error that carries the URL, the
    status and the body of the response exactly when the status is not 207.
    The failure yields no items and ends the walk at once, also when it
    happens in a directory further down: nothing gathered before is kept. *)
Theorem list_dir_protocol_error (parseString : string → option node)
    (s : session) (host path : string) :
  let url := webdav_url host path in
  let r := request s "PROPFIND" url PROPFIND_REQUEST in
  ((∃ msg, list_dir parseString s host path = Raise (RuntimeError msg))
   ↔ status_code r ≠ 207)
  ∧ (status_code r ≠ 207 →
     list_dir parseString s host path
     = Raise (RuntimeError
                ("Unexpected response from " +:+ url +:+ Str.nl
                 +:+ " Status code: " +:+ pretty (status_code r) +:+ Str.nl
                 +:+ " Message:" +:+ Str.nl +:+ text r))
     ∧ ∀ fuel, walk_dir parseString (S fuel) s host path
               = list_dir parseString s host path)
  ∧ (∀ fuel top before x after files e,
       list_dir parseString s host top = Ret (before ++ x :: after) →
       for_each (walk_entry (walk_dir parseString fuel s host)) before []
       = Ret files →
       x !! "path" = Some (VStr path) → Str.endswith path "/" = true →
       walk_dir parseString fuel s host path = Raise e →
       walk_dir parseString (S fuel) s host top = Raise e).
Proof.
  intros url r. split; [| split].
  - split.
    + intros [msg H] Hr.
      apply list_dir_success_raise in H; [| exact Hr].
      destruct H as [H | [H | [H | H]]]; discriminate.
    + intros Hr. eexists. by apply list_dir_failure.
  - intros Hr. pose proof (list_dir_failure parseString s host path Hr) as H.
    split; [exact H |]. intros fuel. rewrite H.
    by apply walk_dir_listing_raise.
  - intros fuel top before x after files e.
    apply walk_dir_nested_raise.
Qed.

Lemma list_dir_protocol_error_witness :
  (∃ msg, list_dir Share.parseString Share.refusing Share.host "/sub/"
          = Raise (RuntimeError msg))
  ∧ ∃ e, walk_dir Share.parseString 2 Share.refusing Share.host "/" = Raise e.
Proof.
  destruct (list_dir_protocol_error Share.parseString Share.refusing
              Share.host "/sub/") as (H1 & H2 & H3).
  assert (status_code (request Share.refusing "PROPFIND"
            (webdav_url Share.host "/sub/") PROPFIND_REQUEST) ≠ 207) as Hr.
  { vm_compute. discriminate. }
  destruct (H2 Hr) as [Hl Hw].
  split; [by apply H1 |].
  eexists. apply (H3 1%nat "/" [Share.a_txt] Share.sub_dir [] [Share.a_txt]).
  - vm_compute. reflexivity.
  - vm_compute. reflexivity.
  - reflexivity.
  - reflexivity.
  - rewrite Hw. exact Hl.
Defined.

Section WalkerTree.

Variable parseString : string → option node.
Variable s : session.
Variable host : string.

Lemma walk_entries_files (walk : string → outcome (list item))
    (listing acc files : list item) :
  (∀ p sub, walk p = Ret sub → Forall Tree.is_file_item sub) →
  Forall Tree.is_file_item acc →
  for_each (walk_entry walk) listing acc = Ret files →
  Forall Tree.is_file_item files.
Proof.
  intros Hwalk. revert acc. induction listing as [| x listing IH];
    intros acc Hacc; simpl.
  - by intros [= <-].
  - intros H. apply obind_ret in H as (acc' & Hx & H).
    apply (IH acc'); [| exact H].
    unfold walk_entry, getitem_str, getitem in Hx.
    destruct (x !! "path") as [[p | n] |] eqn:Hp; simpl in Hx; try discriminate.
    destruct (Str.endswith p "/") eqn:Hend.
    + apply obind_ret in Hx as (sub & Hsub & [= <-]).
      apply Forall_app. split; [exact Hacc | by eapply Hwalk].
    + injection Hx as <-. apply Forall_app. split; [exact Hacc |].
      repeat constructor. by exists p.
Qed.

Lemma walk_dir_files_only (fuel : nat) (path : string) (files : list item) :
  walk_dir parseString fuel s host path = Ret files →
  Forall Tree.is_file_item files.
Proof.
  revert path files. induction fuel as [| fuel IH]; intros path files;
    simpl; [discriminate |].
  intros H. apply obind_ret in H as (listing & _ & H).
  eapply walk_entries_files; [| constructor | exact H].
  intros p sub. apply IH.
Qed.

Lemma served_kids (listing : string → outcome (list item)) (kids : list rtree) :
  fold_right (λ k P, Tree.served listing k ∧ P) True kids
  ↔ Forall (Tree.served listing) kids.
Proof.
  induction kids as [| k kids IH]; simpl.
  - split; [constructor | done].
  - rewrite IH. split.
    + intros [? ?]. by constructor.
    + intros H. by inversion H.
Qed.

Lemma list_max_bound (l : list nat) (n : nat) :
  (list_max l < S n)%nat → Forall (λ k, k < S n)%nat l.
Proof.
  intros H. apply Forall_forall. intros k Hk.
  assert (Forall (λ k, k ≤ list_max l)%nat l) as Hall by by apply list_max_le.
  eapply Forall_forall in Hall; [| exact Hk]. lia.
Qed.

(** The loop over the children of a directory, given that the recursive
    call is right on every tree that is less deep than [fuel]. *)
Lemma walk_entries_tree (fuel : nat) (kids : list rtree) (acc : list item) :
  (∀ t, (Tree.depth t < S fuel)%nat →
        Tree.served (list_dir parseString s host) t →
        ∀ x kids', t = RDir x kids' → ∀ p, x !! "path" = Some (VStr p) →
        walk_dir parseString fuel s host p = Ret (Tree.leaves t)) →
  Forall (λ t, Tree.depth t < S fuel)%nat kids →
  Forall (Tree.served (list_dir parseString s host)) kids →
  for_each (walk_entry (walk_dir parseString fuel s host))
           (map Tree.entry kids) acc
  = Ret (acc ++ flat_map Tree.leaves kids).
Proof.
  intros IH. revert acc. induction kids as [| k kids IHk]; intros acc Hd Hs;
    simpl.
  - by rewrite app_nil_r.
  - inversion Hd as [| ? ? Hdk Hd']; subst.
    inversion Hs as [| ? ? Hsk Hs']; subst.
    assert (walk_entry (walk_dir parseString fuel s host) acc (Tree.entry k)
            = Ret (acc ++ Tree.leaves k)) as ->.
    { destruct k as [x | x kids']; simpl in Hsk |- *.
      - destruct Hsk as (p & Hp & Hend).
        unfold walk_entry, getitem_str, getitem. rewrite Hp. simpl.
        by rewrite Hend.
      - pose proof Hsk as [(p & Hp & Hend & _) _].
        unfold walk_entry, getitem_str, getitem. rewrite Hp. simpl.
        rewrite Hend.
        rewrite (IH (RDir x kids') Hdk Hsk x kids' eq_refl p Hp). done. }
    simpl. rewrite IHk by done. by rewrite <- app_assoc.
Qed.

Lemma walk_dir_tree (fuel : nat) (t : rtree) (x : item) (kids : list rtree)
    (p : string) :
  (Tree.depth t < S fuel)%nat →
  Tree.served (list_dir parseString s host) t →
  t = RDir x kids → x !! "path" = Some (VStr p) →
  walk_dir parseString fuel s host p = Ret (Tree.leaves t).
Proof.
  revert t x kids p. induction fuel as [| fuel IH]; intros t x kids p Hd Hs -> Hp.
  - simpl in Hd. lia.
  - simpl in Hd, Hs. destruct Hs as [(p' & Hp' & _ & Hl) Hkids].
    assert (p' = p) as -> by congruence.
    simpl. rewrite Hl. simpl.
    rewrite (walk_entries_tree fuel kids []); [done | | |].
    + intros t' Hd' Hs' x' kids' -> q Hq. by eapply IH.
    + apply (proj1 (Forall_map Tree.depth (λ k, k < S fuel)%nat kids)).
      apply list_max_bound. lia.
    + by apply served_kids.
Qed.

End WalkerTree.

(** C2. On a share that is a tree, the walk from the path of a directory
    returns exactly the file entries below it, however deep they lie, and
    whatever the server answers a completed walk holds no item whose path
    ends in the separator. *)
Theorem walk_dir_returns_leaf_files (parseString : string → option node)
    (s : session) (host path : string) (fuel : nat) :
  (∀ x kids,
     x !! "path" = Some (VStr path) →
     Tree.served (list_dir parseString s host) (RDir x kids) →
     (Tree.depth (RDir x kids) ≤ fuel)%nat →
     walk_dir parseString fuel s host path = Ret (Tree.leaves (RDir x kids)))
  ∧ (∀ files,
       walk_dir parseString fuel s host path = Ret files →
       Forall (λ f, ∃ p, f !! "path" = Some (VStr p)
                         ∧ Str.endswith p "/" = false) files).
Proof.
  split.
  - intros x kids Hp Hs Hd.
    eapply walk_dir_tree; [| exact Hs | reflexivity | exact Hp]. lia.
  - apply walk_dir_files_only.
Qed.

Lemma walk_dir_returns_leaf_files_witness :
  walk_dir Share.parseString 2 (Share.server None []) Share.host "/"
  = Ret [Share.a_txt; Share.b_txt].
Proof.
  destruct (walk_dir_returns_leaf_files Share.parseString
              (Share.server None []) Share.host "/" 2) as [H _].
  apply (H Share.root_dir [RFile Share.a_txt; RDir Share.sub_dir [RFile Share.b_txt]]).
  - reflexivity.
  - simpl. split; [| split; [| split; [split; [| split] |]]]; try exact I.
    + exists "/". split; [reflexivity |]. split; [reflexivity |].
      vm_compute. reflexivity.
    + exists "/a.txt". by split.
    + exists "/sub/". split; [reflexivity |]. split; [reflexivity |].
      vm_compute. reflexivity.
    + exists "/sub/b.txt". by split.
  - simpl. lia.
Defined.

(** ** The reconciler *)

Module Plan.

Definition dest_of (x : item) : option string :=
  match x !! "dest" with
  | Some (VStr d) => Some d
  | _ => None
  end.

(** There is a regular file at the destination of [x]. *)
Definition present (fs : filesystem) (x : item) : bool :=
  match dest_of x with
  | Some d => Fs.isfile fs d
  | None => false
  end.

(** The byte size of the file at the destination. *)
Definition local_size (fs : filesystem) (x : item) : Z :=
  match dest_of x with
  | Some d => match Fs.getsize fs d with Ret n => n | _ => 0 end
  | None => 0
  end.

Definition same_size (fs : filesystem) (x : item) : bool :=
  match x !! "contentlength" with
  | Some cl => py_eq (VInt (local_size fs x)) cl
  | None => false
  end.

Definition is_new (fs : filesystem) (x : item) : bool :=
  negb (present fs x).

Definition is_existing (fs : filesystem) (x : item) : bool :=
  present fs x && same_size fs x.

Definition is_mismatched (fs : filesystem) (x : item) : bool :=
  present fs x && negb (same_size fs x).

(** The item with the local size recorded. *)
Definition with_size (fs : filesystem) (x : item) : item :=
  <["filesize" := VInt (local_size fs x)]> x.

(** A file that is there locally while its item has no content length. *)
Definition unsized (fs : filesystem) (x : item) : bool :=
  present fs x && bool_decide (x !! "contentlength" = None).

(** The probes [check_files] makes for one item. *)
Definition probes_of (fs : filesystem) (x : item) : list probe :=
  match dest_of x with
  | Some d =>
      ProbeIsFile d :: (if present fs x then [ProbeGetSize d] else [])
  | None => []
  end.

Definition classified (fs : filesystem) (files : list item) : buckets :=
  (List.filter (is_new fs) files,
   map (with_size fs) (List.filter (is_mismatched fs) files),
   map (with_size fs) (List.filter (is_existing fs) files)).

End Plan.



(** One turn of the loop of [check_files]. *)
Lemma check_file_step (acc : buckets) (x : item) (d : string) (w : world) :
  Plan.dest_of x = Some d →
  let fs := w_fs w in
  let w' := World fs (w_probes w ++ Plan.probes_of fs x) in
  check_file acc x w
  = if Plan.unsized fs x then (Raise (KeyError "contentlength"), w')
    else
      (Ret (acc.1.1 ++ (if Plan.is_new fs x then [x] else []),
            acc.1.2 ++ (if Plan.is_mismatched fs x
                        then [Plan.with_size fs x] else []),
            acc.2 ++ (if Plan.is_existing fs x
                      then [Plan.with_size fs x] else [])), w').
Proof.
  intros Hd fs w'. destruct acc as [[new mis] ex]. subst w'.
  unfold Plan.unsized, Plan.is_existing, Plan.is_mismatched, Plan.same_size,
    Plan.with_size, Plan.probes_of, Plan.is_new, Plan.present, Plan.local_size.
  rewrite Hd. simpl.
  unfold Plan.dest_of in Hd.
  unfold check_file, io_bind, io_lift, getitem_str, getitem, Os.isfile,
    Os.getsize, probed.
  destruct (x !! "dest") as [[d' | n'] |] eqn:Hx; simplify_eq/=.
  fold fs. unfold Fs.isfile, Fs.getsize.
  destruct (Fs.stat fs d) as [[c |] | e |] eqn:Hst; simpl;
    rewrite ?app_nil_r; try reflexivity.
  subst fs. rewrite ?Hst. simpl.
  rewrite lookup_insert_ne by done.
  rewrite <- app_assoc. simpl.
  destruct (x !! "contentlength") as [cl |] eqn:Hcl; simpl; [| reflexivity].
  unfold io_ret. destruct (py_eq _ cl); simpl; by rewrite ?app_nil_r.
Qed.

Lemma check_files_from (files : list item) (acc : buckets) (w : world) :
  Forall (λ x, is_Some (Plan.dest_of x)) files →
  Forall (λ x, Plan.unsized (w_fs w) x = false) files →
  let fs := w_fs w in
  io_for_each check_file files acc w
  = (Ret (acc.1.1 ++ (Plan.classified fs files).1.1,
          acc.1.2 ++ (Plan.classified fs files).1.2,
          acc.2 ++ (Plan.classified fs files).2),
     World fs (w_probes w ++ flat_map (Plan.probes_of fs) files)).
Proof.
  intros Hd Hu fs. subst fs. revert acc w Hu.
  induction Hd as [| x files [d Hx] _ IH]; intros acc w Hu; simpl.
  - rewrite !app_nil_r. by destruct acc as [[? ?] ?], w.
  - inversion Hu as [| ? ? Hux Hu']; subst.
    unfold io_bind. rewrite (check_file_step acc x d w Hx), Hux.
    rewrite IH by exact Hu'. simpl.
    rewrite <- !app_assoc. f_equal.
    destruct (Plan.is_new (w_fs w) x), (Plan.is_mismatched (w_fs w) x),
      (Plan.is_existing (w_fs w) x); reflexivity.
Qed.

Lemma check_files_unsized (files : list item) (acc : buckets) (w : world) :
  Forall (λ x, is_Some (Plan.dest_of x)) files →
  Exists (λ x, Plan.unsized (w_fs w) x = true) files →
  (io_for_each check_file files acc w).1 = Raise (KeyError "contentlength").
Proof.
  intros Hd. revert acc w.
  induction Hd as [| x files [d Hx] _ IH]; intros acc w Hex; simpl.
  - inversion Hex.
  - unfold io_bind. rewrite (check_file_step acc x d w Hx).
    destruct (Plan.unsized (w_fs w) x) eqn:Hux; [reflexivity |].
    apply IH. simpl. inversion Hex; subst; [congruence | done].
Qed.

Lemma check_files_ret (files : list item) (w w' : world) (b : buckets) :
  Forall (λ x, is_Some (Plan.dest_of x)) files →
  check_files files w = (Ret b, w') →
  b = Plan.classified (w_fs w) files ∧ w_fs w' = w_fs w.
Proof.
  intros Hd Hret. unfold check_files in Hret.
  destruct (decide (Exists (λ x, Plan.unsized (w_fs w) x = true) files))
    as [Hex | Hnex].
  - pose proof (check_files_unsized files ([], [], []) w Hd Hex) as H.
    rewrite Hret in H. discriminate.
  - rewrite check_files_from in Hret; [| exact Hd |].
    + simpl in Hret. by injection Hret as <- <-.
    + apply Forall_forall. intros x Hx.
      destruct (Plan.unsized (w_fs w) x) eqn:Hu; [| done].
      exfalso. apply Hnex. apply Exists_exists. eauto.
Qed.

Lemma isdir_listdir (fs : filesystem) (p : string) :
  Fs.isdir fs p = true → ∃ l, Fs.listdir fs p = Ret l.
Proof.
  unfold Fs.isdir, Fs.stat, Fs.listdir.
  destruct (Fs.locate fs p) as [loc | |]; simpl; try discriminate.
  destruct (Fs.kind fs loc) as [[c |] |]; simpl; try discriminate. eauto.
Qed.

(** What [check_dir_not_empty] answers, and what it looks at. *)
Definition dir_not_empty (fs : filesystem) (p : string) : bool :=
  Fs.isdir fs p && match Fs.listdir fs p with Ret [] => false | _ => true end.

Definition dir_probes (fs : filesystem) (p : string) : list probe :=
  ProbeIsDir p :: (if Fs.isdir fs p then [ProbeListDir p] else []).

Lemma check_dir_not_empty_spec (p : string) (w : world) :
  check_dir_not_empty p w
  = (Ret (dir_not_empty (w_fs w) p),
     World (w_fs w) (w_probes w ++ dir_probes (w_fs w) p)).
Proof.
  unfold check_dir_not_empty, dir_not_empty, dir_probes, io_bind, Os.isdir,
    Os.listdir, probed, io_ret. simpl.
  destruct (Fs.isdir (w_fs w) p) eqn:Hd; simpl; [| reflexivity].
  destruct (isdir_listdir _ _ Hd) as [l ->]. rewrite <- app_assoc. simpl.
  by destruct l.
Qed.

Lemma dir_not_empty_false (fs : filesystem) (p : string) :
  dir_not_empty fs p = false ↔ Fs.isdir fs p = false ∨ Fs.listdir fs p = Ret [].
Proof.
  unfold dir_not_empty. destruct (Fs.isdir fs p); simpl.
  - destruct (Fs.listdir fs p) as [[| n l] | e |]; split; auto;
      intros [H | H]; discriminate.
  - split; auto.
Qed.

Lemma filter_each_filter {A} (p : A → outcome bool) (q : A → bool) (l : list A) :
  Forall (λ x, p x = Ret (q x)) l → filter_each p l = Ret (List.filter q l).
Proof.
  induction 1 as [| x l Hx _ IH]; simpl; [done |].
  rewrite Hx, IH. simpl. by destruct (q x).
Qed.

Lemma set_dest_dest (out : string) (x y : item) :
  set_dest out x = Ret y → is_Some (Plan.dest_of y).
Proof.
  unfold set_dest. intros H. apply obind_ret in H as (p & _ & [= <-]).
  unfold Plan.dest_of. rewrite lookup_insert_eq. eauto.
Qed.

(** The files with their destinations, before any filtering. *)
Definition with_dests (out : string) (walked : list item) : outcome (list item) :=
  let! files := sorted_by_path walked in map_each (set_dest out) files.

Lemma with_dests_dest (out : string) (walked files : list item) :
  with_dests out walked = Ret files →
  Forall (λ x, is_Some (Plan.dest_of x)) files.
Proof.
  unfold with_dests. intros H. apply obind_ret in H as (sorted & _ & H).
  apply map_each_ret in H. induction H as [| x y ? ? Hxy _ IH]; constructor.
  - by eapply set_dest_dest.
  - exact IH.
Qed.

Section Reconciler.

Variable fnmatch : string → string → bool.

(** The patterns, when there is at least one. *)
Definition patterns (a : arguments) : option (list string) :=
  match glob a with
  | Some (g :: gs) => Some (g :: gs)
  | _ => None
  end.

(** The destination of [x] matches one of the patterns. *)
Definition matches (globs : list string) (x : item) : bool :=
  match Plan.dest_of x with
  | Some d => glob_filter fnmatch d globs
  | None => false
  end.

(** The files that reach the classification. *)
Definition prepared (a : arguments) (walked : list item) : outcome (list item) :=
  let! files := with_dests (output a) walked in filter_globs fnmatch a files.

Lemma glob_filter_exists (d : string) (globs : list string) :
  glob_filter fnmatch d globs = true ↔ ∃ g, g ∈ globs ∧ fnmatch d g = true.
Proof.
  induction globs as [| g globs IH]; simpl.
  - split; [discriminate | intros (g & Hg & _); inversion Hg].
  - destruct (fnmatch d g) eqn:Hg.
    + split; [| done]. intros _. exists g. split; [left | done].
    + rewrite IH. split.
      * intros (g' & Hin & Hm). exists g'. split; [by right | done].
      * intros (g' & Hin & Hm). inversion Hin; subst; [congruence |]. eauto.
Qed.

Lemma filter_globs_spec (a : arguments) (files : list item) :
  Forall (λ x, is_Some (Plan.dest_of x)) files →
  filter_globs fnmatch a files
  = Ret (match patterns a with
         | Some globs => List.filter (matches globs) files
         | None => files
         end).
Proof.
  intros Hd. unfold filter_globs, patterns.
  destruct (glob a) as [[| g gs] |]; try reflexivity.
  apply filter_each_filter. eapply Forall_impl; [exact Hd |].
  intros x [d Hx]. unfold matches. rewrite Hx.
  unfold Plan.dest_of in Hx. unfold getitem_str, getitem.
  destruct (x !! "dest") as [[d' | n] |]; simplify_eq/=. reflexivity.
Qed.

Lemma prepared_dest (a : arguments) (walked files : list item) :
  prepared a walked = Ret files →
  Forall (λ x, is_Some (Plan.dest_of x)) files.
Proof.
  unfold prepared. intros H. apply obind_ret in H as (all & Hall & H).
  apply with_dests_dest in Hall. rewrite filter_globs_spec in H by done.
  injection H as <-. destruct (patterns a); [| done].
  apply Forall_forall. intros x Hx. apply list_elem_of_In, filter_In in Hx.
  destruct Hx as [Hx _]. apply list_elem_of_In in Hx.
  by eapply Forall_forall in Hall.
Qed.

Lemma reconcile_prepared (a : arguments) (walked : list item) (w : world) :
  reconcile fnmatch a walked w
  = match prepared a walked with
    | Ret files =>
        let w' := World (w_fs w)
                    (w_probes w ++ dir_probes (w_fs w) (output a)) in
        if dir_not_empty (w_fs w) (output a) then check_files files w'
        else (Ret (files, [], []), w')
    | Raise e => (Raise e, w)
    | OutOfFuel => (OutOfFuel, w)
    end.
Proof.
  unfold reconcile, prepared, with_dests, io_bind, io_lift.
  destruct (sorted_by_path walked) as [sorted | |]; simpl; try reflexivity.
  destruct (map_each _ sorted) as [all | |]; simpl; try reflexivity.
  destruct (filter_globs fnmatch a all) as [files | |]; simpl; try reflexivity.
  rewrite check_dir_not_empty_spec.
  by destruct (dir_not_empty _ _).
Qed.

End Reconciler.

Lemma filter_partition_length {A} (p q r : A → bool) (l : list A) :
  Forall (λ x, (p x = true ∧ q x = false ∧ r x = false)
               ∨ (p x = false ∧ q x = true ∧ r x = false)
               ∨ (p x = false ∧ q x = false ∧ r x = true)) l →
  (length (List.filter p l) + length (List.filter q l)
   + length (List.filter r l) = length l)%nat.
Proof.
  induction 1 as [| x l Hx _ IH]; simpl; [done |].
  destruct Hx as [(-> & -> & ->) | [(-> & -> & ->) | (-> & -> & ->)]];
    simpl; lia.
Qed.

Lemma classes_exclusive (fs : filesystem) (x : item) :
  (Plan.is_new fs x = true ∧ Plan.is_mismatched fs x = false
   ∧ Plan.is_existing fs x = false)
  ∨ (Plan.is_new fs x = false ∧ Plan.is_mismatched fs x = true
     ∧ Plan.is_existing fs x = false)
  ∨ (Plan.is_new fs x = false ∧ Plan.is_mismatched fs x = false
     ∧ Plan.is_existing fs x = true).
Proof.
  unfold Plan.is_new, Plan.is_mismatched, Plan.is_existing.
  destruct (Plan.present fs x), (Plan.same_size fs x); simpl; auto.
Qed.


Lemma with_size_dest (fs : filesystem) (x : item) :
  Plan.dest_of (Plan.with_size fs x) = Plan.dest_of x.
Proof. unfold Plan.dest_of, Plan.with_size. by rewrite lookup_insert_ne. Qed.

(** Every file is in its bucket, and every member of a bucket is a file. *)
Lemma classified_covers (fs : filesystem) (files : list item) (x : item) :
  x ∈ files →
  x ∈ (Plan.classified fs files).1.1
  ∨ Plan.with_size fs x ∈ (Plan.classified fs files).1.2
  ∨ Plan.with_size fs x ∈ (Plan.classified fs files).2.
Proof.
  intros Hx. unfold Plan.classified. simpl.
  destruct (classes_exclusive fs x) as [(H & _) | [(_ & H & _) | (_ & _ & H)]].
  - left. apply list_elem_of_In, filter_In. by rewrite <- list_elem_of_In.
  - right. left. apply list_elem_of_fmap_2.
    apply list_elem_of_In, filter_In. by rewrite <- list_elem_of_In.
  - right. right. apply list_elem_of_fmap_2.
    apply list_elem_of_In, filter_In. by rewrite <- list_elem_of_In.
Qed.

Lemma classified_members (fs : filesystem) (files : list item) (y : item) :
  y ∈ (Plan.classified fs files).1.1 ++ (Plan.classified fs files).1.2
      ++ (Plan.classified fs files).2 →
  ∃ x, x ∈ files ∧ Plan.dest_of y = Plan.dest_of x.
Proof.
  unfold Plan.classified. simpl. rewrite !elem_of_app.
  intros [H | [H | H]].
  - apply list_elem_of_In, filter_In in H as [H _].
    exists y. by rewrite list_elem_of_In.
  - apply list_elem_of_fmap in H as (x & -> & H).
    apply list_elem_of_In, filter_In in H as [H _].
    exists x. rewrite list_elem_of_In. split; [done | apply with_size_dest].
  - apply list_elem_of_fmap in H as (x & -> & H).
    apply list_elem_of_In, filter_In in H as [H _].
    exists x. rewrite list_elem_of_In. split; [done | apply with_size_dest].
Qed.

(** The two ways [reconcile] returns. *)
Lemma reconcile_ret (fnmatch : string → string → bool) (a : arguments)
    (walked : list item) (w w' : world) (b : buckets) :
  reconcile fnmatch a walked w = (Ret b, w') →
  ∃ files, prepared fnmatch a walked = Ret files
           ∧ (b = (files, [], []) ∨ b = Plan.classified (w_fs w) files).
Proof.
  rewrite reconcile_prepared.
  destruct (prepared fnmatch a walked) as [files | |] eqn:Hp; try discriminate.
  simpl. intros H. exists files. split; [done |].
  destruct (dir_not_empty _ _).
  - right. apply check_files_ret in H as [-> _]; [done |].
    by eapply prepared_dest.
  - left. by injection H as <-.
Qed.

(** C1. Reconciliation of the files that reach the classification.  When
    the output directory is missing or has no entry, every file is new and
    the only probes made are those of the output directory itself: no
    destination is looked at.  Otherwise every destination is probed: the
    files without a regular file there are new, those whose local size equals
    the content length are existing, the others are mismatched, the latter
    two with the local size recorded; this needs the content length of the
    files that are there locally, which files of a listing have.  Every file
    falls in exactly one class and the three buckets together have as many
    entries as there are files. *)
Theorem reconcile_classifies (fnmatch : string → string → bool)
    (a : arguments) (walked files : list item) (w : world) :
  let fs := w_fs w in
  let out := output a in
  prepared fnmatch a walked = Ret files →
  (Fs.isdir fs out = false ∨ Fs.listdir fs out = Ret [] →
     reconcile fnmatch a walked w
     = (Ret (files, [], []),
        World fs (w_probes w ++ ProbeIsDir out
                    :: (if Fs.isdir fs out then [ProbeListDir out] else []))))
  ∧ (¬ (Fs.isdir fs out = false ∨ Fs.listdir fs out = Ret []) →
     Forall (λ x, Plan.present fs x = true → is_Some (x !! "contentlength"))
            files →
     reconcile fnmatch a walked w
     = (Ret (List.filter (Plan.is_new fs) files,
             map (Plan.with_size fs) (List.filter (Plan.is_mismatched fs) files),
             map (Plan.with_size fs) (List.filter (Plan.is_existing fs) files)),
        World fs (w_probes w ++ [ProbeIsDir out; ProbeListDir out]
                    ++ flat_map (Plan.probes_of fs) files)))
  ∧ Forall (λ x,
      (Plan.is_new fs x = true ∧ Plan.is_mismatched fs x = false
       ∧ Plan.is_existing fs x = false)
      ∨ (Plan.is_new fs x = false ∧ Plan.is_mismatched fs x = true
         ∧ Plan.is_existing fs x = false)
      ∨ (Plan.is_new fs x = false ∧ Plan.is_mismatched fs x = false
         ∧ Plan.is_existing fs x = true)) files
  ∧ (length (List.filter (Plan.is_new fs) files)
     + length (List.filter (Plan.is_mismatched fs) files)
     + length (List.filter (Plan.is_existing fs) files) = length files)%nat.
Proof.
  intros fs out Hp. split; [| split; [| split]].
  - intros He. apply dir_not_empty_false in He.
    rewrite reconcile_prepared, Hp. simpl. fold fs out. by rewrite He.
  - intros Hne Hcl. rewrite reconcile_prepared, Hp. simpl. fold fs out.
    destruct (dir_not_empty fs out) eqn:Hd;
      [| by apply dir_not_empty_false in Hd].
    unfold check_files. rewrite check_files_from; simpl.
    + unfold dir_probes. fold fs.
      assert (Fs.isdir fs out = true) as ->.
      { unfold dir_not_empty in Hd. by destruct (Fs.isdir fs out). }
      by rewrite <- app_assoc.
    + by eapply prepared_dest.
    + eapply Forall_impl; [exact Hcl |]. intros x Hx.
      unfold Plan.unsized. fold fs. simpl in Hx.
      destruct (Plan.present fs x) eqn:Hpr; [| done].
      destruct (Hx eq_refl) as [cl ->]. by rewrite bool_decide_false.
  - apply Forall_forall. intros x _. apply classes_exclusive.
  - apply filter_partition_length, Forall_forall. intros x _.
    apply classes_exclusive.
Qed.

Lemma reconcile_classifies_witness :
  (reconcile Share.fnmatch Share.to_out [Share.b_txt; Share.a_txt]
     Share.empty_disk).1
  = Ret ([Share.with_dest "out/a.txt" Share.a_txt;
          Share.with_dest "out/sub/b.txt" Share.b_txt], [], [])
  ∧ (reconcile Share.fnmatch Share.to_out [Share.b_txt; Share.a_txt]
       Share.resumed).1
    = Ret ([],
           [<["filesize" := VInt 5]> (Share.with_dest "out/sub/b.txt" Share.b_txt)],
           [<["filesize" := VInt 10]> (Share.with_dest "out/a.txt" Share.a_txt)]).
Proof.
  split.
  - destruct (reconcile_classifies Share.fnmatch Share.to_out
                [Share.b_txt; Share.a_txt]
                [Share.with_dest "out/a.txt" Share.a_txt;
                 Share.with_dest "out/sub/b.txt" Share.b_txt]
                Share.empty_disk) as (H & _).
    + vm_compute. reflexivity.
    + rewrite H; [reflexivity |]. left. reflexivity.
  - destruct (reconcile_classifies Share.fnmatch Share.to_out
                [Share.b_txt; Share.a_txt]
                [Share.with_dest "out/a.txt" Share.a_txt;
                 Share.with_dest "out/sub/b.txt" Share.b_txt]
                Share.resumed) as (_ & H & _).
    + vm_compute. reflexivity.
    + rewrite H.
      * vm_compute. reflexivity.
      * intros [Hd | Hd]; vm_compute in Hd; discriminate.
      * repeat constructor; intros _; vm_compute; eauto.
Defined.

(** C8. With at least one pattern, the files that reach the classification
    are exactly those whose destination matches one of the patterns; whenever
    reconciliation returns, every member of the three buckets has such a
    destination, and every matching file is in a bucket. *)
Theorem glob_filter_retains_matches (fnmatch : string → string → bool)
    (a : arguments) (walked all : list item) (g : string) (gs : list string)
    (w : world) :
  let globs := g :: gs in
  let matching := λ x : item,
    ∃ d g', Plan.dest_of x = Some d ∧ g' ∈ globs ∧ fnmatch d g' = true in
  glob a = Some globs →
  with_dests (output a) walked = Ret all →
  prepared fnmatch a walked = Ret (List.filter (matches fnmatch globs) all)
  ∧ (∀ x, x ∈ all → matches fnmatch globs x = true ↔ matching x)
  ∧ (∀ new mis ex w',
       reconcile fnmatch a walked w = (Ret (new, mis, ex), w') →
       (∀ y, y ∈ new ++ mis ++ ex → matching y)
       ∧ (∀ x, x ∈ all → matching x →
            x ∈ new ∨ Plan.with_size (w_fs w) x ∈ mis
            ∨ Plan.with_size (w_fs w) x ∈ ex)).
Proof.
  intros globs matching Hg Hall.
  assert (∀ x, matches fnmatch globs x = true ↔ matching x) as Hm.
  { intros x. unfold matches, matching.
    destruct (Plan.dest_of x) as [d |].
    - rewrite glob_filter_exists. split.
      + intros (g' & ? & ?). eauto.
      + intros (d' & g' & [= <-] & ? & ?). eauto.
    - split; [discriminate | intros (? & ? & ? & _); discriminate]. }
  assert (prepared fnmatch a walked
          = Ret (List.filter (matches fnmatch globs) all)) as Hp.
  { unfold prepared. rewrite Hall. simpl.
    rewrite filter_globs_spec by by eapply with_dests_dest.
    unfold patterns. by rewrite Hg. }
  split; [exact Hp |]. split; [intros x _; apply Hm |].
  intros new mis ex w' Hr.
  apply reconcile_ret in Hr as (files & Hf & Hb).
  rewrite Hp in Hf. injection Hf as <-.
  set (files := List.filter (matches fnmatch globs) all) in *.
  assert (∀ x, x ∈ files ↔ x ∈ all ∧ matching x) as Hfiles.
  { intros x. unfold files. rewrite list_elem_of_In, filter_In.
    by rewrite <- list_elem_of_In, Hm. }
  destruct Hb as [[= -> -> ->] | Hb].
  - split.
    + intros y. rewrite !app_nil_r. intros Hy. by apply Hfiles in Hy as [_ ?].
    + intros x Hx Hmx. left. by apply Hfiles.
  - split.
    + intros y Hy.
      assert (∃ x, x ∈ files ∧ Plan.dest_of y = Plan.dest_of x)
        as (x & Hx & Hd).
      { apply (classified_members (w_fs w)). by rewrite <- Hb. }
      apply Hfiles in Hx as [_ (d & g' & Hxd & ?)].
      exists d, g'. by rewrite Hd.
    + intros x Hx Hmx.
      pose proof (classified_covers (w_fs w) files x) as Hc.
      rewrite <- Hb in Hc. simpl in Hc. apply Hc. by apply Hfiles.
Qed.

Lemma glob_filter_retains_matches_witness :
  (reconcile Share.fnmatch Share.only_a_txt [Share.b_txt; Share.a_txt]
     Share.resumed).1
  = Ret ([], [],
         [<["filesize" := VInt 10]> (Share.with_dest "out/a.txt" Share.a_txt)])
  ∧ ∃ d g', Plan.dest_of (<["filesize" := VInt 10]>
                            (Share.with_dest "out/a.txt" Share.a_txt)) = Some d
            ∧ g' ∈ ["*/a.txt"; "*.md"] ∧ Share.fnmatch d g' = true.
Proof.
  assert ((reconcile Share.fnmatch Share.only_a_txt
             [Share.b_txt; Share.a_txt] Share.resumed).1
          = Ret ([], [], [<["filesize" := VInt 10]>
                            (Share.with_dest "out/a.txt" Share.a_txt)])) as Hr.
  { vm_compute. reflexivity. }
  split; [exact Hr |].
  destruct (glob_filter_retains_matches Share.fnmatch Share.only_a_txt
              [Share.b_txt; Share.a_txt]
              [Share.with_dest "out/a.txt" Share.a_txt;
               Share.with_dest "out/sub/b.txt" Share.b_txt]
              "*/a.txt" ["*.md"] Share.resumed) as (_ & _ & H).
  - reflexivity.
  - vm_compute. reflexivity.
  - destruct (reconcile Share.fnmatch Share.only_a_txt
                [Share.b_txt; Share.a_txt] Share.resumed) as [r w'] eqn:Hrec.
    simpl in Hr. subst r.
    destruct (H _ _ _ _ eq_refl) as [Hin _].
    apply Hin. simpl. left.
Defined.

(** C10. [check_files] reads the content length of an item without a guard
    as soon as a regular file is at its destination: on items that all carry
    it the call returns, and one item without it whose destination is there
    makes the call fail with the missing key. *)
Theorem check_files_needs_contentlength (files : list item) (w : world) :
  Forall (λ x, is_Some (Plan.dest_of x)) files →
  (Forall (λ x, is_Some (x !! "contentlength")) files →
   ∃ b w', check_files files w = (Ret b, w'))
  ∧ (∀ x, x ∈ files → x !! "contentlength" = None →
          Plan.present (w_fs w) x = true →
          (check_files files w).1 = Raise (KeyError "contentlength")).
Proof.
  intros Hd. split.
  - intros Hcl. unfold check_files. rewrite check_files_from; [eauto | done |].
    eapply Forall_impl; [exact Hcl |]. intros x [cl Hx].
    unfold Plan.unsized. rewrite Hx.
    rewrite bool_decide_false by done. apply andb_false_r.
  - intros x Hx Hcl Hpr. apply check_files_unsized; [done |].
    apply Exists_exists. exists x. split; [done |].
    unfold Plan.unsized. rewrite Hpr, Hcl. by rewrite bool_decide_true.
Qed.

Lemma check_files_needs_contentlength_witness :
  Share.stray !! "contentlength" = None
  ∧ (check_files [Share.stray] Share.resumed).1
    = Raise (KeyError "contentlength").
Proof.
  split; [reflexivity |].
  destruct (check_files_needs_contentlength [Share.stray] Share.resumed)
    as [_ H].
  - repeat constructor. vm_compute. eauto.
  - apply (H Share.stray); [left | reflexivity | reflexivity].
Defined.

(** ** The transfer engine *)

Lemma kind_insert_ne (fs : filesystem) (loc cur : list string) (v : fsnode) :
  cur ≠ loc → Fs.kind (<[loc := v]> fs) cur = Fs.kind fs cur.
Proof.
  intros Hne. destruct cur as [| c cur]; [reflexivity |].
  simpl. by rewrite lookup_insert_ne.
Qed.

(** Putting a file where a path leads does not change where the path leads,
    as long as no directory was there. *)
Lemma walk_path_insert (fs : filesystem) (cur rest loc : list string)
    (v : fsnode) :
  Fs.walk_path fs cur rest = Ret loc →
  Fs.kind fs loc ≠ Some FsDir →
  Fs.walk_path (<[loc := v]> fs) cur rest = Ret loc.
Proof.
  intros Hw Hk. revert cur Hw. induction rest as [| c rest IH]; intros cur;
    simpl; [done |].
  destruct (Fs.kind fs cur) as [[content |] |] eqn:Hc; try discriminate.
  assert (cur ≠ loc) as Hne by (intros ->; congruence).
  rewrite kind_insert_ne, Hc by done.
  repeat case_match; apply IH.
Qed.

Lemma open_wb_ret (fs fs' : filesystem) (p : string) (loc : list string) :
  Fs.open_wb fs p = Ret (loc, fs') →
  Fs.locate fs p = Ret loc ∧ Fs.kind fs loc ≠ Some FsDir
  ∧ loc ≠ [] ∧ fs' = <[loc := FsFile ""]> fs.
Proof.
  unfold Fs.open_wb. intros H. apply obind_ret in H as (loc' & Hl & H).
  destruct (Fs.kind fs loc') as [[c |] |] eqn:Hk; simplify_eq/=.
  - repeat split; try congruence. intros ->. discriminate.
  - repeat split; try congruence. intros ->. discriminate.
Qed.

(** After the file at [loc] was written, the path leads to a regular file
    with that content. *)
Lemma stat_written (fs : filesystem) (p : string) (loc : list string)
    (content : string) :
  Fs.locate fs p = Ret loc → Fs.kind fs loc ≠ Some FsDir → loc ≠ [] →
  Fs.stat (<[loc := FsFile content]> fs) p = Ret (FsFile content).
Proof.
  unfold Fs.stat, Fs.locate. intros Hl Hk Hne.
  destruct (bool_decide (p = "")); [discriminate |].
  rewrite (walk_path_insert _ _ _ _ _ Hl Hk). simpl.
  destruct loc; [done |]. simpl. by rewrite lookup_insert_eq.
Qed.

Lemma string_length_app (a b : string) :
  String.length (a +:+ b) = (String.length a + String.length b)%nat.
Proof. induction a as [| c a IH]; simpl; [done | by rewrite IH]. Qed.

Lemma string_app_nil_r (a : string) : a +:+ "" = a.
Proof.
  induction a as [| c a IH]; [done |].
  change (String c (a +:+ "") = String c a). by rewrite IH.
Qed.

Lemma string_app_assoc (a b c : string) : (a +:+ b) +:+ c = a +:+ b +:+ c.
Proof.
  induction a as [| x a IH]; [done |].
  change (String x ((a +:+ b) +:+ c) = String x (a +:+ b +:+ c)).
  by rewrite IH.
Qed.

(** The chunk loop appends every chunk and counts its bytes. *)
Lemma write_chunks (loc : list string) (chunks : list string) (n : Z)
    (fs : filesystem) (c : string) (pr : list probe) :
  fs !! loc = Some (FsFile c) →
  io_for_each (write_chunk loc) chunks n (World fs pr)
  = (Ret (n + Z.of_nat (String.length (Str.concat chunks))),
     World (<[loc := FsFile (c +:+ Str.concat chunks)]> fs) pr).
Proof.
  revert n fs c. induction chunks as [| data chunks IH]; intros n fs c Hc; simpl.
  - unfold io_ret, Str.concat. simpl.
    rewrite string_app_nil_r, insert_id by done.
    by rewrite Z.add_0_r.
  - unfold io_bind, write_chunk at 1, io_bind, Os.write, io_ret. simpl.
    unfold Fs.write. rewrite Hc.
    rewrite (IH _ _ (c +:+ data)) by by rewrite lookup_insert_eq.
    change (Str.concat (data :: chunks)) with (data +:+ Str.concat chunks).
    rewrite insert_insert_eq, string_app_assoc, string_length_app.
    do 2 f_equal. lia.
Qed.

(** The bytes a response delivers for the block size of the program. *)
Definition delivered (r : response) : string := Str.concat (iter_content r 1024).

Definition written (r : response) : Z := Z.of_nat (String.length (delivered r)).

(** A download that gets as far as the size check. *)
Lemma download_file_spec (s : session) (host path_share path_out : string)
    (w : world) (fs1 fs2 : filesystem) (total : Z) (loc : list string) :
  let r := get s (webdav_url host path_share) in
  Fs.makedirs (w_fs w) (Path.dirname path_out) = (Ret (), fs1) →
  py_int (advertised_length r) = Ret total →
  Fs.open_wb fs1 path_out = Ret (loc, fs2) →
  download_file s host path_share path_out w
  = (if negb (total =? 0) && negb (written r =? total)
     then Raise (download_error (webdav_url host path_share))
     else Ret (),
     World (<[loc := FsFile (delivered r)]> fs1) (w_probes w))
  ∧ Fs.stat (<[loc := FsFile (delivered r)]> fs1) path_out
    = Ret (FsFile (delivered r)).
Proof.
  intros r Hmk Hint Hopen.
  pose proof (open_wb_ret _ _ _ _ Hopen) as (Hloc & Hk & Hne & ->).
  split; [| by apply stat_written].
  unfold download_file, io_bind, Os.makedirs, io_lift, Os.open_wb.
  rewrite Hmk. fold r. rewrite Hint. simpl. rewrite Hopen.
  rewrite (write_chunks loc _ 0 _ "") by by rewrite lookup_insert_eq.
  rewrite insert_insert_eq. simpl. fold (delivered r). fold (written r).
  rewrite Z.add_0_l. change ("" +:+ delivered r) with (delivered r).
  by destruct (negb (total =? 0) && negb (written r =? total)).
Qed.

(** C3. For a download whose destination could be opened and whose
    content-length header, if any, reads as a number: the call fails with the
    error naming the URL exactly when the advertised length is not zero and
    differs from the number of bytes written, which is the size of the
    destination file afterwards; without the header the advertised length is
    zero, and then, as with a zero header, the call returns whatever was
    written. *)
Theorem download_file_integrity (s : session) (host path_share path_out : string)
    (w : world) (fs1 fs2 : filesystem) (total : Z) (loc : list string) :
  let url := webdav_url host path_share in
  let r := get s url in
  let result := download_file s host path_share path_out w in
  Fs.makedirs (w_fs w) (Path.dirname path_out) = (Ret (), fs1) →
  py_int (advertised_length r) = Ret total →
  Fs.open_wb fs1 path_out = Ret (loc, fs2) →
  (result.1 = Raise (RuntimeError ("Could not download file: " +:+ url))
   ↔ total ≠ 0 ∧ written r ≠ total)
  ∧ (result.1 = Ret () ↔ total = 0 ∨ written r = total)
  ∧ Fs.getsize (w_fs result.2) path_out = Ret (written r)
  ∧ (headers r !! "content-length" = None → total = 0).
Proof.
  intros url r result Hmk Hint Hopen.
  destruct (download_file_spec s host path_share path_out w fs1 fs2 total loc
              Hmk Hint Hopen) as [Hres Hstat].
  fold url r in Hres, Hstat. subst result. rewrite Hres. simpl.
  split; [| split; [| split]].
  - destruct (Z.eqb_spec total 0), (Z.eqb_spec (written r) total); simpl;
      split; try done; try (intros [? ?]; done).
  - destruct (Z.eqb_spec total 0), (Z.eqb_spec (written r) total); simpl;
      split; try done; auto; intros [? | ?]; done.
  - unfold Fs.getsize. by rewrite Hstat.
  - intros Hh. unfold advertised_length in Hint. rewrite Hh in Hint.
    simpl in Hint. by injection Hint as <-.
Qed.

Lemma download_file_integrity_witness :
  (download_file (Share.server (Some "100") [Share.fifty_bytes]) Share.host
     "/a.txt" "out/a.txt" Share.empty_disk).1
  = Raise (RuntimeError ("Could not download file: "
                         +:+ webdav_url Share.host "/a.txt")).
Proof.
  destruct (download_file_integrity
              (Share.server (Some "100") [Share.fifty_bytes]) Share.host
              "/a.txt" "out/a.txt" Share.empty_disk Share.out_made
              (<[ ["out"; "a.txt"] := FsFile "" ]> Share.out_made) 100
              ["out"; "a.txt"]) as (H & _).
  - vm_compute. reflexivity.
  - reflexivity.
  - vm_compute. reflexivity.
  - apply H. split; [lia |]. vm_compute. discriminate.
Defined.

Lemma reconcile_populated (fnmatch : string → string → bool) (a : arguments)
    (walked files : list item) (w : world) :
  prepared fnmatch a walked = Ret files →
  Forall (λ x, is_Some (x !! "contentlength")) files →
  dir_not_empty (w_fs w) (output a) = true →
  (reconcile fnmatch a walked w).1 = Ret (Plan.classified (w_fs w) files).
Proof.
  intros Hp Hcl Hd. rewrite reconcile_prepared, Hp. simpl. rewrite Hd.
  unfold check_files. rewrite check_files_from; simpl; [done | |].
  - by eapply prepared_dest.
  - eapply Forall_impl; [exact Hcl |]. intros x [cl Hx].
    unfold Plan.unsized. rewrite Hx.
    rewrite bool_decide_false by done. apply andb_false_r.
Qed.

(** C9, as the code has it.  After a download that returns and whose
    response advertised a non-zero size S, the destination file holds exactly
    S bytes; a reconciliation against the populated output directory then
    puts the file among the existing ones when the listing gives S as its
    content length. *)
Theorem download_then_existing (s : session) (host path_share path_out : string)
    (w : world) (fs1 fs2 : filesystem) (total : Z) (loc : list string)
    (fnmatch : string → string → bool) (a : arguments)
    (walked files : list item) (x : item) :
  let r := get s (webdav_url host path_share) in
  let result := download_file s host path_share path_out w in
  let fs' := w_fs result.2 in
  Fs.makedirs (w_fs w) (Path.dirname path_out) = (Ret (), fs1) →
  py_int (advertised_length r) = Ret total →
  Fs.open_wb fs1 path_out = Ret (loc, fs2) →
  total ≠ 0 →
  result.1 = Ret () →
  prepared fnmatch a walked = Ret files →
  Forall (λ y, is_Some (y !! "contentlength")) files →
  x ∈ files →
  Plan.dest_of x = Some path_out →
  x !! "contentlength" = Some (VInt total) →
  ¬ (Fs.isdir fs' (output a) = false ∨ Fs.listdir fs' (output a) = Ret []) →
  Fs.isfile fs' path_out = true
  ∧ Fs.getsize fs' path_out = Ret total
  ∧ ∃ new mis ex,
      (reconcile fnmatch a walked result.2).1 = Ret (new, mis, ex)
      ∧ <["filesize" := VInt total]> x ∈ ex
      ∧ Plan.is_new fs' x = false
      ∧ Plan.is_mismatched fs' x = false.
Proof.
  intros r result fs' Hmk Hint Hopen Hnz Hret Hp Hcl Hx Hd Hxcl Hpop.
  destruct (download_file_spec s host path_share path_out w fs1 fs2 total loc
              Hmk Hint Hopen) as [Hres Hstat].
  fold r in Hres, Hstat. subst fs' result. rewrite Hres in *. simpl in *.
  set (fs' := <[loc := FsFile (delivered r)]> fs1) in *.
  assert (written r = total) as Hw.
  { destruct (Z.eqb_spec total 0); [done |].
    destruct (Z.eqb_spec (written r) total); [done | discriminate]. }
  assert (Fs.isfile fs' path_out = true) as Hfile.
  { unfold Fs.isfile. by rewrite Hstat. }
  assert (Fs.getsize fs' path_out = Ret total) as Hsize.
  { unfold Fs.getsize. rewrite Hstat. simpl. by rewrite <- Hw. }
  assert (Plan.present fs' x = true) as Hpr.
  { unfold Plan.present. by rewrite Hd. }
  assert (Plan.local_size fs' x = total) as Hls.
  { unfold Plan.local_size. by rewrite Hd, Hsize. }
  assert (Plan.same_size fs' x = true) as Hsame.
  { unfold Plan.same_size. rewrite Hxcl, Hls. unfold py_eq.
    by rewrite bool_decide_true. }
  split; [exact Hfile |]. split; [exact Hsize |].
  eexists _, _, _. split.
  - apply reconcile_populated; [exact Hp | exact Hcl |]. simpl.
    destruct (dir_not_empty fs' (output a)) eqn:He; [done |].
    by apply dir_not_empty_false in He.
  - split; [| split].
    + rewrite <- Hls. simpl.
      change (<["filesize" := VInt (Plan.local_size fs' x)]> x)
        with (Plan.with_size fs' x).
      apply list_elem_of_fmap_2.
      apply list_elem_of_In, filter_In. rewrite <- list_elem_of_In.
      split; [done |]. unfold Plan.is_existing. by rewrite Hpr, Hsame.
    + unfold Plan.is_new. by rewrite Hpr.
    + unfold Plan.is_mismatched. by rewrite Hpr, Hsame.
Qed.

Lemma download_then_existing_witness :
  let result :=
    download_file (Share.server (Some "10") [Share.ten_bytes]) Share.host
      "/a.txt" "out/a.txt" Share.empty_disk in
  ∃ new mis ex,
    (reconcile Share.fnmatch Share.to_out [Share.a_txt] result.2).1
    = Ret (new, mis, ex)
    ∧ <["filesize" := VInt 10]> (Share.with_dest "out/a.txt" Share.a_txt) ∈ ex.
Proof.
  intros result.
  destruct (download_then_existing
              (Share.server (Some "10") [Share.ten_bytes]) Share.host
              "/a.txt" "out/a.txt" Share.empty_disk Share.out_made
              (<[ ["out"; "a.txt"] := FsFile "" ]> Share.out_made) 10
              ["out"; "a.txt"] Share.fnmatch Share.to_out [Share.a_txt]
              [Share.with_dest "out/a.txt" Share.a_txt]
              (Share.with_dest "out/a.txt" Share.a_txt))
    as (_ & _ & new & mis & ex & H1 & H2 & _).
  - vm_compute. reflexivity.
  - reflexivity.
  - vm_compute. reflexivity.
  - lia.
  - vm_compute. reflexivity.
  - vm_compute. reflexivity.
  - repeat constructor. vm_compute. eauto.
  - left.
  - reflexivity.
  - reflexivity.
  - intros [H | H]; vm_compute in H; discriminate.
  - exists new, mis, ex. split; [exact H1 | exact H2].
Defined.

(** C9 as stated fails: the size the download response advertises need not
    be the content length of the listing.  Here the listing gives 10 bytes
    for [/a.txt], the response advertises and delivers 5; the download
    returns, and the next reconciliation finds the file mismatched. *)
Lemma download_then_mismatched :
  let result :=
    download_file (Share.server (Some "5") ["012"; "34"]) Share.host
      "/a.txt" "out/a.txt" Share.empty_disk in
  result.1 = Ret ()
  ∧ Fs.getsize (w_fs result.2) "out/a.txt" = Ret 5
  ∧ (reconcile Share.fnmatch Share.to_out [Share.a_txt] result.2).1
    = Ret ([],
           [<["filesize" := VInt 5]> (Share.with_dest "out/a.txt" Share.a_txt)],
           []).
Proof. vm_compute. repeat split; reflexivity. Qed.

(** C5 on the code: the destination is decoded after the join, so an escape
    in the output root is decoded as well, while the claim keeps the root as
    it is. *)
Theorem set_dest_decodes_output_root :
  set_dest "out%41" Share.a_txt = Ret (Share.with_dest "outA/a.txt" Share.a_txt)
  ∧ Path.join "out%41" (Str.drop 1 (Path.unquote "/a.txt")) = "out%41/a.txt".
Proof. split; vm_compute; reflexivity. Qed.


(** * Further properties of the code *)

(** ** Listings with missing parts *)

Lemma parse_field_missing (e : node) (it : item) (field : string) :
  Dom.getElementsByTagName e ("d:get" +:+ field) = [] →
  parse_field e it field = Raise IndexError.
Proof. intros H. unfold parse_field. by rewrite H. Qed.

Lemma parse_field_cases (e : node) (it : item) (field : string) :
  (∃ it', parse_field e it field = Ret it')
  ∨ parse_field e it field = Raise IndexError
  ∨ parse_field e it field = Raise AttributeError.
Proof.
  unfold parse_field, Dom.first.
  destruct (head _) as [el |]; simpl; [| by right; left].
  destruct (Dom.firstChild el) as [[| d | d] |]; simpl; eauto.
Qed.


Lemma parse_entry_not_fuel (e : node) : parse_entry e ≠ OutOfFuel.
Proof.
  unfold parse_entry, Dom.first, Dom.data_of_opt.
  destruct (head (Dom.getElementsByTagName e "d:href")) as [el |]; simpl;
    [| done].
  destruct (Dom.firstChild el) as [[| d | d] |]; simpl; try done.
  all: repeat match goal with
       | |- context [parse_field ?n ?it ?f] =>
           destruct (parse_field_cases n it f) as [[? ->] | [-> | ->]];
           simpl; [| done | done]
       end.
  all: match goal with
       | |- context [?m !! "contentlength"] =>
           destruct (m !! "contentlength") as [[t | k] |]; simpl; try done
       end.
  all: by destruct (PyInt.of_string t).
Qed.

Lemma map_each_not_fuel {A B} (f : A → outcome B) (l : list A) :
  (∀ x, f x ≠ OutOfFuel) → map_each f l ≠ OutOfFuel.
Proof.
  intros Hf. induction l as [| x l IH]; simpl; [done |].
  destruct (f x) as [y | ex |] eqn:Hx; simpl; [| done | by apply Hf in Hx].
  by destruct (map_each f l).
Qed.

(** X1. The three property elements are looked up with [[0]]: an entry in
    which one of them is not there at all yields no item, the parser fails
    with an index error (or with the attribute error of an earlier step),
    and so does the parse of every document that holds such an entry. *)
Theorem parse_entry_missing_property (e : node) (fld : string) :
  fld ∈ ["lastmodified"; "contentlength"; "contenttype"] →
  Dom.getElementsByTagName e ("d:get" +:+ fld) = [] →
  (∃ ex, parse_entry e = Raise ex ∧ (ex = IndexError ∨ ex = AttributeError))
  ∧ ∀ dom, e ∈ Dom.getElementsByTagName dom "d:response" →
           ∃ ex, parse_document dom = Raise ex.
Proof.
  intros Hf Hmiss.
  assert (∃ ex, parse_entry e = Raise ex ∧ (ex = IndexError ∨ ex = AttributeError))
    as Hraise.
  { assert (fld = "lastmodified" ∨ fld = "contentlength" ∨ fld = "contenttype")
      as Hcases.
    { apply elem_of_cons in Hf as [? | Hf]; [auto |].
      apply elem_of_cons in Hf as [? | Hf]; [auto |].
      apply elem_of_cons in Hf as [? | Hf]; [auto |].
      by apply elem_of_nil in Hf. }
    clear Hf. unfold parse_entry, Dom.first.
    destruct (head (Dom.getElementsByTagName e "d:href")) as [el |]; simpl;
      [| eauto].
    unfold Dom.data_of_opt.
    destruct (Dom.firstChild el) as [[| d | d] |]; simpl; eauto.
    all: destruct Hcases as [-> | [-> | ->]].
    all: repeat match goal with
         | |- context [parse_field ?n ?it ?f] =>
             first
               [ rewrite (parse_field_missing n it f Hmiss); simpl; by eauto
               | destruct (parse_field_cases n it f) as [[? ->] | [-> | ->]];
                 simpl; [| by eauto | by eauto] ]
         end. }
  split; [exact Hraise |].
  intros dom Hin. rewrite parse_document_map_each.
  destruct (map_each parse_entry _) as [res | ex |] eqn:Hm; [| eauto |].
  - apply map_each_ret in Hm.
    apply list_elem_of_lookup in Hin as [i Hi].
    destruct (Forall2_lookup_l _ _ _ _ _ Hm Hi) as (it & _ & Hit).
    destruct Hraise as (ex & Hex & _). congruence.
  - by apply map_each_not_fuel in Hm; [| apply parse_entry_not_fuel].
Qed.

Lemma parse_entry_missing_property_witness :
  ∃ ex, parse_entry Share.untyped = Raise ex
        ∧ (ex = IndexError ∨ ex = AttributeError).
Proof.
  destruct (parse_entry_missing_property Share.untyped "contenttype")
    as [H _].
  - by right; right; left.
  - reflexivity.
  - exact H.
Defined.

(** ** The reconciler only reads *)

Lemma check_file_reads (acc : buckets) (x : item) (fs : filesystem)
    (pr1 pr2 : list probe) :
  w_fs (check_file acc x (World fs pr1)).2 = fs
  ∧ (check_file acc x (World fs pr1)).1 = (check_file acc x (World fs pr2)).1.
Proof.
  destruct acc as [[new mis] ex].
  unfold check_file, io_bind, io_lift, getitem_str, getitem, Os.isfile,
    Os.getsize, probed, io_ret. simpl.
  destruct (x !! "dest") as [[d | n] |]; simpl; try done.
  destruct (Fs.isfile fs d); simpl; [| done].
  destruct (Fs.getsize fs d) as [size | e |]; simpl; try done.
  destruct (<["filesize" := VInt size]> x !! "contentlength") as [cl |];
    simpl; [| done].
  by destruct (py_eq (VInt size) cl).
Qed.

Lemma check_files_reads (files : list item) (acc : buckets) (fs : filesystem)
    (pr1 pr2 : list probe) :
  w_fs (io_for_each check_file files acc (World fs pr1)).2 = fs
  ∧ (io_for_each check_file files acc (World fs pr1)).1
    = (io_for_each check_file files acc (World fs pr2)).1.
Proof.
  revert acc pr1 pr2. induction files as [| x files IH]; intros acc pr1 pr2;
    simpl; [done |].
  unfold io_bind.
  destruct (check_file_reads acc x fs pr1 pr2) as [Hfs Hout].
  destruct (check_file_reads acc x fs pr2 pr1) as [Hfs' _].
  destruct (check_file acc x (World fs pr1)) as [r1 [fs1 q1]].
  destruct (check_file acc x (World fs pr2)) as [r2 [fs2 q2]].
  simpl in *. subst fs1 fs2 r2.
  destruct r1 as [acc' | e |]; simpl; first [apply IH | done].
Qed.

Lemma reconcile_reads (fnmatch : string → string → bool) (a : arguments)
    (walked : list item) (fs : filesystem) (pr1 pr2 : list probe) :
  w_fs (reconcile fnmatch a walked (World fs pr1)).2 = fs
  ∧ (reconcile fnmatch a walked (World fs pr1)).1
    = (reconcile fnmatch a walked (World fs pr2)).1.
Proof.
  rewrite !reconcile_prepared. simpl.
  destruct (prepared fnmatch a walked) as [files | e |]; simpl; try done.
  destruct (dir_not_empty fs (output a)); [| done].
  apply check_files_reads.
Qed.

Lemma get_file_lists_reads (parseString : string → option node)
    (fnmatch : string → string → bool) (fuel : nat) (s : session)
    (host path : string) (a : arguments) (fs : filesystem)
    (pr1 pr2 : list probe) :
  w_fs (get_file_lists parseString fnmatch fuel s host path a
          (World fs pr1)).2 = fs
  ∧ (get_file_lists parseString fnmatch fuel s host path a (World fs pr1)).1
    = (get_file_lists parseString fnmatch fuel s host path a (World fs pr2)).1.
Proof.
  unfold get_file_lists, io_bind, io_lift.
  destruct (walk_dir parseString fuel s host path) as [walked | e |]; simpl.
  - apply reconcile_reads.
  - done.
  - done.
Qed.

(** X2. Whatever the listing and the disk hold, and whether the call returns
    or raises, [get_file_lists] leaves every file and directory of the local
    file system as it was. *)
Theorem get_file_lists_changes_nothing (parseString : string → option node)
    (fnmatch : string → string → bool) (fuel : nat) (s : session)
    (host path : string) (a : arguments) (w : world) :
  w_fs (get_file_lists parseString fnmatch fuel s host path a w).2 = w_fs w.
Proof.
  destruct w as [fs pr]. simpl.
  apply (get_file_lists_reads parseString fnmatch fuel s host path a fs pr pr).
Qed.

(** X3. Reconciling a second time, against the disk as the first run left it
    and the same listing, gives the same outcome: the same three buckets, or
    the same exception. *)
Theorem get_file_lists_idempotent (parseString : string → option node)
    (fnmatch : string → string → bool) (fuel : nat) (s : session)
    (host path : string) (a : arguments) (w : world) :
  let first := get_file_lists parseString fnmatch fuel s host path a w in
  (get_file_lists parseString fnmatch fuel s host path a first.2).1 = first.1.
Proof.
  intros first. destruct w as [fs pr].
  pose proof (get_file_lists_reads parseString fnmatch fuel s host path a
                fs pr pr) as [Hfs _].
  fold first in Hfs. destruct first as [r [fs' pr']] eqn:Hfirst.
  simpl in *. subst fs'.
  pose proof (get_file_lists_reads parseString fnmatch fuel s host path a
                fs pr' pr) as [_ H].
  rewrite H. subst first. by rewrite Hfirst.
Qed.

(** ** The first run: every file, in path order *)

Definition path_of (x : item) : string :=
  match x !! "path" with
  | Some (VStr p) => p
  | _ => ""
  end.

(** The item with its destination under [out]. *)
Definition dest_for (out : string) (x : item) : item :=
  <["dest" := VStr (Path.unquote (Path.join out (Str.drop 1 (path_of x))))]> x.

Definition has_path (x : item) : Prop := ∃ p, x !! "path" = Some (VStr p).

Definition by_key {A} (a b : string * A) : Prop := String.le a.1 b.1.

Lemma sort_insert_perm {A} (x : string * A) (l : list (string * A)) :
  Sort.insert x l ≡ₚ x :: l.
Proof.
  induction l as [| y l IH]; simpl; [done |].
  destruct (String.leb x.1 y.1); [done |].
  rewrite IH. apply Permutation_swap.
Qed.

Lemma sort_perm {A} (l : list (string * A)) : Sort.sort l ≡ₚ l.
Proof.
  induction l as [| x l IH]; simpl; [done |].
  unfold Sort.sort in *. simpl. by rewrite sort_insert_perm, IH.
Qed.

Lemma sort_insert_sorted {A} (x : string * A) (l : list (string * A)) :
  Sorted by_key l → Sorted by_key (Sort.insert x l).
Proof.
  induction 1 as [| y l Hl IH Hy]; simpl.
  - repeat constructor.
  - destruct (String.leb x.1 y.1) eqn:Hxy.
    + constructor; [by constructor |]. constructor. unfold by_key, String.le.
      by rewrite Hxy.
    + constructor; [exact IH |].
      assert (by_key y x) as Hyx.
      { unfold by_key, String.le. destruct (String.leb_total x.1 y.1) as [H | H];
          [congruence | by rewrite H]. }
      destruct l as [| z l]; simpl; [by constructor |].
      destruct (String.leb x.1 z.1); constructor; [exact Hyx |].
      by inversion Hy.
Qed.

Lemma sort_sorted {A} (l : list (string * A)) : Sorted by_key (Sort.sort l).
Proof.
  induction l as [| x l IH]; [constructor |].
  by apply sort_insert_sorted.
Qed.

Global Instance by_key_trans {A} : Transitive (@by_key A).
Proof. intros a b c. unfold by_key. apply transitivity. Qed.

Lemma sorted_by_path_spec (walked : list item) :
  Forall has_path walked →
  sorted_by_path walked
  = Ret (map snd (Sort.sort (map (λ x, (path_of x, x)) walked))).
Proof.
  intros Hp. unfold sorted_by_path.
  assert (map_each (λ x, let! k := getitem_str x "path" TypeError in Ret (k, x))
            walked = Ret (map (λ x, (path_of x, x)) walked)) as ->; [| done].
  apply map_each_ret. induction Hp as [| x l [p Hx] _ IH]; simpl;
    constructor; [| exact IH].
  unfold getitem_str, getitem, path_of. by rewrite Hx.
Qed.

Lemma set_dest_spec (out : string) (x : item) :
  has_path x → set_dest out x = Ret (dest_for out x).
Proof.
  intros [p Hx]. unfold set_dest, dest_for, getitem_str, getitem, path_of.
  by rewrite Hx.
Qed.

Lemma with_dests_spec (out : string) (walked : list item) :
  Forall has_path walked →
  ∃ sorted,
    with_dests out walked = Ret (map (dest_for out) sorted)
    ∧ sorted ≡ₚ walked
    ∧ StronglySorted (λ x y, String.le (path_of x) (path_of y)) sorted.
Proof.
  intros Hp. set (keyed := map (λ x, (path_of x, x)) walked).
  exists (map snd (Sort.sort keyed)).
  assert (map snd (Sort.sort keyed) ≡ₚ walked) as Hperm.
  { rewrite sort_perm. unfold keyed. rewrite map_map. simpl. by rewrite map_id. }
  split; [| split; [exact Hperm |]].
  - unfold with_dests. rewrite sorted_by_path_spec by done. simpl. fold keyed.
    apply map_each_ret. apply Forall2_fmap_r, Forall_Forall2_diag.
    apply Forall_forall. intros x Hx. apply set_dest_spec.
    rewrite Hperm in Hx. by eapply Forall_forall in Hp.
  - assert (Forall (λ kx : string * item, kx.1 = path_of kx.2) (Sort.sort keyed))
      as Hkeys.
    { rewrite sort_perm. unfold keyed. apply Forall_forall. intros kx Hkx.
      apply list_elem_of_fmap in Hkx as (x & -> & _). done. }
    assert (StronglySorted by_key (Sort.sort keyed)) as Hs.
    { apply Sorted_StronglySorted; [apply by_key_trans | apply sort_sorted]. }
    clear Hperm. revert Hs Hkeys. generalize (Sort.sort keyed).
    intros l' Hs Hkeys.
    induction Hs as [| kx l Hl IH Hall]; simpl; [constructor |].
    inversion Hkeys as [| ? ? Hk Hks]; subst.
    constructor; [by apply IH |].
    apply Forall_fmap. apply Forall_forall. intros ky Hky.
    eapply Forall_forall in Hall; [| exact Hky].
    eapply Forall_forall in Hks; [| exact Hky].
    unfold by_key in Hall. simpl. by rewrite <- Hk, <- Hks.
Qed.

(** X4. With no pattern and an output directory that is missing or empty,
    [get_file_lists] on a completed walk puts every file of the walk in the
    new bucket, each exactly once and with its destination set, in ascending
    order of their remote paths; the two other buckets are empty. *)
Theorem get_file_lists_first_run (parseString : string → option node)
    (fnmatch : string → string → bool) (fuel : nat) (s : session)
    (host path : string) (a : arguments) (w : world) (walked : list item) :
  walk_dir parseString fuel s host path = Ret walked →
  patterns a = None →
  Fs.isdir (w_fs w) (output a) = false
  ∨ Fs.listdir (w_fs w) (output a) = Ret [] →
  ∃ sorted,
    (get_file_lists parseString fnmatch fuel s host path a w).1
    = Ret (map (dest_for (output a)) sorted, [], [])
    ∧ sorted ≡ₚ walked
    ∧ StronglySorted (λ x y, String.le (path_of x) (path_of y)) sorted.
Proof.
  intros Hwalk Hpat Hempty.
  assert (Forall has_path walked) as Hp.
  { eapply Forall_impl; [by eapply walk_dir_files_only |].
    intros x (p & Hx & _). by exists p. }
  destruct (with_dests_spec (output a) walked Hp) as (sorted & Hd & Hperm & Hs).
  exists sorted. split; [| done].
  unfold get_file_lists, io_bind, io_lift. rewrite Hwalk.
  rewrite reconcile_prepared. unfold prepared. rewrite Hd. simpl.
  rewrite filter_globs_spec by by eapply with_dests_dest.
  rewrite Hpat. simpl. apply dir_not_empty_false in Hempty. by rewrite Hempty.
Qed.

Lemma get_file_lists_first_run_witness :
  (get_file_lists Share.parseString Share.fnmatch 2 (Share.server None [])
     Share.host "/" Share.to_out Share.empty_disk).1
  = Ret ([Share.with_dest "out/a.txt" Share.a_txt;
          Share.with_dest "out/sub/b.txt" Share.b_txt], [], []).
Proof.
  destruct (get_file_lists_first_run Share.parseString Share.fnmatch 2
              (Share.server None []) Share.host "/" Share.to_out
              Share.empty_disk [Share.a_txt; Share.b_txt])
    as (sorted & H & _).
  - vm_compute. reflexivity.
  - reflexivity.
  - by left.
  - vm_compute. reflexivity.
Defined.

(** ** Destinations *)

Definition no_percent (s : string) : Prop :=
  Forall (λ c, c ≠ "%"%char) (Str.to_list s).

Lemma unquote_app (a b : string) :
  no_percent a → Path.unquote (a +:+ b) = a +:+ Path.unquote b.
Proof.
  unfold no_percent. induction a as [| c a IH]; simpl; [done |].
  intros H. inversion H as [| ? ? Hc Ha]; subst.
  change (String c a +:+ b) with (String c (a +:+ b)).
  change (String c a +:+ Path.unquote b) with (String c (a +:+ Path.unquote b)).
  simpl. destruct (Ascii.eqb_spec c "%"); [done |]. by rewrite IH.
Qed.

(** X5. For an output root without a percent sign, the destination of an
    item whose path begins with the separator is the root joined with the
    decoded rest of the path, as long as the rest does not decode to a text
    that begins with a separator the rest itself did not begin with. *)
Theorem set_dest_decodes_remote_path (out rest : string) (x : item) :
  no_percent out →
  x !! "path" = Some (VStr (String "/" rest)) →
  Str.startswith (Path.unquote rest) "/" = Str.startswith rest "/" →
  set_dest out x
  = Ret (<["dest" := VStr (Path.join out (Path.unquote rest))]> x).
Proof.
  intros Hout Hx Hsep.
  assert (Path.unquote (Path.join out rest) = Path.join out (Path.unquote rest))
    as Heq.
  { unfold Path.join, Path.sep. rewrite Hsep.
    destruct (Str.startswith rest "/") eqn:Hr; [done |].
    destruct (bool_decide (out = "") || Str.endswith out "/").
    - by apply unquote_app.
    - rewrite unquote_app by done. reflexivity. }
  unfold set_dest, getitem_str, getitem. rewrite Hx.
  unfold of_option, obind.
  change (Str.drop 1 (String "/" rest)) with rest. by rewrite Heq.
Qed.

Lemma set_dest_decodes_remote_path_witness :
  set_dest "out" (<["path" := VStr "/my%20notes/a%2Bb.txt"]> Share.a_txt)
  = Ret (<["dest" := VStr "out/my notes/a+b.txt"]>
           (<["path" := VStr "/my%20notes/a%2Bb.txt"]> Share.a_txt)).
Proof.
  apply (set_dest_decodes_remote_path "out" "my%20notes/a%2Bb.txt").
  - repeat constructor; done.
  - reflexivity.
  - reflexivity.
Defined.

(** X6. The output root does not confine the destinations: for a remote path
    that begins with two separators the join drops the root, and the
    destination is the decoded path from its second character on, an
    absolute path. *)
Theorem set_dest_leaves_output_root (out rest : string) (x : item) :
  x !! "path" = Some (VStr (String "/" (String "/" rest))) →
  set_dest out x
  = Ret (<["dest" := VStr (String "/" (Path.unquote rest))]> x).
Proof.
  intros Hx. unfold set_dest, getitem_str, getitem. rewrite Hx.
  by destruct rest.
Qed.

Lemma set_dest_leaves_output_root_witness :
  set_dest "out" (<["path" := VStr "//etc/motd"]> Share.a_txt)
  = Ret (<["dest" := VStr "/etc/motd"]>
           (<["path" := VStr "//etc/motd"]> Share.a_txt)).
Proof.
  apply (set_dest_leaves_output_root "out" "etc/motd"). reflexivity.
Defined.

(** ** Listings of empty directories *)

(** X7. A multi-status body with no entry, or with the entry of the queried
    directory alone, lists as an empty directory: [list_dir] returns no item
    and the walk of that directory returns no file. *)
Theorem list_dir_empty_directory (parseString : string → option node)
    (s : session) (host path : string) (dom : node) :
  let r := request s "PROPFIND" (webdav_url host path) PROPFIND_REQUEST in
  status_code r = CODE_SUCCESS →
  parseString (text r) = Some dom →
  Dom.getElementsByTagName dom "d:response" = []
  ∨ (∃ e, Dom.getElementsByTagName dom "d:response" = [e]
          ∧ Entry.well_formed e) →
  list_dir parseString s host path = Ret []
  ∧ ∀ fuel, walk_dir parseString (S fuel) s host path = Ret [].
Proof.
  intros r Hr Hdom Hentries.
  assert (list_dir parseString s host path = Ret []) as Hl.
  { rewrite list_dir_success by exact Hr. fold r.
    unfold parse_propfind_response. rewrite Hdom. simpl.
    rewrite parse_document_map_each.
    destruct Hentries as [-> | (e & -> & Hwf)]; [done |].
    destruct (parse_entry_well_formed e Hwf) as [it Hit]. simpl.
    by rewrite Hit. }
  split; [exact Hl |]. intros fuel. simpl. by rewrite Hl.
Qed.

Lemma list_dir_empty_directory_witness :
  walk_dir (λ _, Some (Share.multistatus [Share.dir_entry "/public.php/webdav/"]))
    1 (Share.server None []) Share.host "/"
  = Ret [].
Proof.
  destruct (list_dir_empty_directory
              (λ _, Some (Share.multistatus [Share.dir_entry "/public.php/webdav/"]))
              (Share.server None []) Share.host "/"
              (Share.multistatus [Share.dir_entry "/public.php/webdav/"]))
    as [_ H].
  - reflexivity.
  - reflexivity.
  - right. eexists. split; [reflexivity |].
    repeat constructor; vm_compute; eauto.
    eexists; split; [reflexivity |]; intros ? [=].
  - apply H.
Defined.

(** ** Downloads that fail *)

(** X8. A destination without a directory part cannot be downloaded: the
    directory to make is the empty path, [os.makedirs] refuses it, and the
    call fails before the file is opened, leaving the disk as it was. *)
Theorem download_file_needs_directory (s : session)
    (host path_share path_out : string) (w : world) :
  Path.dirname path_out = "" →
  download_file s host path_share path_out w = (Raise FileNotFoundError, w).
Proof.
  intros Hd. unfold download_file, io_bind, Os.makedirs. rewrite Hd.
  unfold Fs.makedirs. simpl. by destruct w.
Qed.

Lemma download_file_needs_directory_witness :
  download_file (Share.server (Some "10") [Share.ten_bytes]) Share.host
    "/a.txt" "a.txt" Share.resumed
  = (Raise FileNotFoundError, Share.resumed).
Proof. apply download_file_needs_directory. reflexivity. Defined.

(** X9. A download that fails the size check leaves what was written on the
    disk: the destination then holds the bytes delivered, and the next
    reconciliation against the populated output directory finds the file
    mismatched, with that number of bytes as its local size, when the listing
    gives the advertised length for it. *)
Theorem download_failed_then_mismatched (s : session)
    (host path_share path_out : string) (w : world) (fs1 fs2 : filesystem)
    (total : Z) (loc : list string) (fnmatch : string → string → bool)
    (a : arguments) (walked files : list item) (x : item) :
  let r := get s (webdav_url host path_share) in
  let result := download_file s host path_share path_out w in
  let fs' := w_fs result.2 in
  Fs.makedirs (w_fs w) (Path.dirname path_out) = (Ret (), fs1) →
  py_int (advertised_length r) = Ret total →
  Fs.open_wb fs1 path_out = Ret (loc, fs2) →
  total ≠ 0 →
  written r ≠ total →
  prepared fnmatch a walked = Ret files →
  Forall (λ y, is_Some (y !! "contentlength")) files →
  x ∈ files →
  Plan.dest_of x = Some path_out →
  x !! "contentlength" = Some (VInt total) →
  ¬ (Fs.isdir fs' (output a) = false ∨ Fs.listdir fs' (output a) = Ret []) →
  result.1 = Raise (download_error (webdav_url host path_share))
  ∧ Fs.getsize fs' path_out = Ret (written r)
  ∧ ∃ new mis ex,
      (reconcile fnmatch a walked result.2).1 = Ret (new, mis, ex)
      ∧ <["filesize" := VInt (written r)]> x ∈ mis.
Proof.
  intros r result fs' Hmk Hint Hopen Hnz Hne Hp Hcl Hx Hd Hxcl Hpop.
  destruct (download_file_spec s host path_share path_out w fs1 fs2 total loc
              Hmk Hint Hopen) as [Hres Hstat].
  fold r in Hres, Hstat. subst fs' result. rewrite Hres in *. simpl in *.
  set (fs' := <[loc := FsFile (delivered r)]> fs1) in *.
  assert (Fs.getsize fs' path_out = Ret (written r)) as Hsize.
  { unfold Fs.getsize. by rewrite Hstat. }
  assert (Plan.present fs' x = true) as Hpr.
  { unfold Plan.present, Fs.isfile. by rewrite Hd, Hstat. }
  assert (Plan.local_size fs' x = written r) as Hls.
  { unfold Plan.local_size. by rewrite Hd, Hsize. }
  assert (Plan.same_size fs' x = false) as Hsame.
  { unfold Plan.same_size. rewrite Hxcl, Hls. unfold py_eq.
    apply bool_decide_false. intros [= ?]. done. }
  split; [| split; [exact Hsize |]].
  - destruct (Z.eqb_spec total 0); [done |].
    by destruct (Z.eqb_spec (written r) total).
  - eexists _, _, _. split.
    + apply reconcile_populated; [exact Hp | exact Hcl |]. simpl.
      destruct (dir_not_empty fs' (output a)) eqn:He; [done |].
      by apply dir_not_empty_false in He.
    + rewrite <- Hls. simpl.
      change (<["filesize" := VInt (Plan.local_size fs' x)]> x)
        with (Plan.with_size fs' x).
      apply list_elem_of_fmap_2.
      apply list_elem_of_In, filter_In. rewrite <- list_elem_of_In.
      split; [done |]. unfold Plan.is_mismatched. by rewrite Hpr, Hsame.
Qed.

Lemma download_failed_then_mismatched_witness :
  let result :=
    download_file (Share.server (Some "10") ["01234"]) Share.host
      "/a.txt" "out/a.txt" Share.empty_disk in
  ∃ new mis ex,
    (reconcile Share.fnmatch Share.to_out [Share.a_txt] result.2).1
    = Ret (new, mis, ex)
    ∧ <["filesize" := VInt 5]> (Share.with_dest "out/a.txt" Share.a_txt) ∈ mis.
Proof.
  intros result.
  destruct (download_failed_then_mismatched
              (Share.server (Some "10") ["01234"]) Share.host
              "/a.txt" "out/a.txt" Share.empty_disk Share.out_made
              (<[ ["out"; "a.txt"] := FsFile "" ]> Share.out_made) 10
              ["out"; "a.txt"] Share.fnmatch Share.to_out [Share.a_txt]
              [Share.with_dest "out/a.txt" Share.a_txt]
              (Share.with_dest "out/a.txt" Share.a_txt))
    as (_ & _ & new & mis & ex & H1 & H2).
  - vm_compute. reflexivity.
  - reflexivity.
  - vm_compute. reflexivity.
  - lia.
  - vm_compute. discriminate.
  - vm_compute. reflexivity.
  - repeat constructor. vm_compute. eauto.
  - left.
  - reflexivity.
  - reflexivity.
  - intros [H | H]; vm_compute in H; discriminate.
  - exists new, mis, ex. split; [exact H1 | exact H2].
Defined.

(** ** Console helpers *)

Lemma length_spaces (n : nat) : String.length (Fmt.spaces n) = n.
Proof. induction n as [| n IH]; simpl; [done | by rewrite IH]. Qed.

Lemma length_drop (n : nat) (s : string) :
  String.length (Str.drop n s) = (String.length s - n)%nat.
Proof.
  revert s. induction n as [| n IH]; intros s; simpl; [lia |].
  destruct s as [| c s]; simpl; [done | apply IH].
Qed.

(** X10. For a width above 3, [path_fmt] always yields the prefix followed by
    exactly [desc_len] characters: a shorter path is padded, a longer one is
    cut to three dots and its last [desc_len - 3] characters.  At a width of
    exactly 3 the slice starts at 0: a path of three characters or more is
    shown whole after the dots, beyond the width. *)
Theorem path_fmt_width (path : string) (desc_len : Z) (desc_pref : string) :
  (3 < desc_len →
   Z.of_nat (String.length (path_fmt path desc_len desc_pref))
   = Z.of_nat (String.length desc_pref) + desc_len)
  ∧ (desc_len = 3 → 3 ≤ Z.of_nat (String.length path) →
     path_fmt path desc_len desc_pref = desc_pref +:+ "..." +:+ path).
Proof.
  unfold path_fmt, Fmt.ljust, Fmt.slice_from. split.
  - intros Hlen.
    destruct (Z.ltb_spec (Z.of_nat (String.length path)) desc_len) as [Hlt | Hge].
    + rewrite !string_length_app, length_spaces. lia.
    + rewrite !string_length_app, length_drop.
      destruct (Z.ltb_spec (- desc_len + 3) 0); simpl; lia.
  - intros -> Hlen.
    destruct (Z.ltb_spec (Z.of_nat (String.length path)) 3); [lia |].
    reflexivity.
Qed.

Lemma path_fmt_width_witness :
  Z.of_nat (String.length (path_fmt "/sub/b.txt" 8 "[1/2] ")) = 6 + 8
  ∧ path_fmt "/sub/b.txt" 8 "[1/2] " = "[1/2] ...b.txt".
Proof.
  split; [| reflexivity].
  destruct (path_fmt_width "/sub/b.txt" 8 "[1/2] ") as [H _].
  apply H. lia.
Defined.

(** A line that ends the questioning. *)
Definition decides (default : option string) (line : string) : bool :=
  (bool_decide (is_Some default) && bool_decide (Ask.lower line = ""))
  || bool_decide (is_Some (Ask.valid !! Ask.lower line)).

(** The answer it gives. *)
Definition decision (default : option string) (line : string) : asked :=
  match default with
  | Some d =>
      if bool_decide (Ask.lower line = "") then Ask.answer d
      else Ask.answer (Ask.lower line)
  | None => Ask.answer (Ask.lower line)
  end.

(** What is written for the lines that are refused. *)
Definition refusals (asking : string) (rejected : list string) : list string :=
  flat_map (λ _, [asking; Ask.reminder]) rejected.

Lemma ask_loop_rejected (asking : string) (default : option string)
    (rejected lines : list string) (out : list string) :
  Forall (λ l, decides default l = false) rejected →
  Ask.loop asking default (rejected ++ lines) out
  = Ask.loop asking default lines (out ++ refusals asking rejected).
Proof.
  intros Hrej. revert out. induction Hrej as [| l rejected Hl _ IH]; intros out.
  - unfold refusals. simpl. by rewrite app_nil_r.
  - simpl. unfold decides in Hl.
    apply orb_false_iff in Hl as [Hl1 Hl2].
    rewrite Hl2. destruct default as [d |].
    + rewrite bool_decide_true in Hl1 by eauto. simpl in Hl1. rewrite Hl1.
      rewrite IH. unfold refusals. simpl. by rewrite <- !app_assoc.
    + rewrite IH. unfold refusals. simpl. by rewrite <- !app_assoc.
Qed.

(** X11. [query_yes_no] refuses a default other than [None], "yes" or "no"
    with a value error before it writes or reads anything.  Otherwise the
    answer is that of the first line that is a valid choice in any letter
    case or, with a default, empty: every line refused before it costs one
    prompt and one reminder, the lines after it stay unread; when no such
    line comes the input runs out. *)
Theorem query_yes_no_first_valid_line (question : string)
    (default : option string) (rejected : list string) (con : console) :
  (Ask.prompt_of default = None →
   query_yes_no question default con = (AskFailed ValueError, con))
  ∧ (∀ prompt line rest out,
       Ask.prompt_of default = Some prompt →
       Forall (λ l, decides default l = false) rejected →
       decides default line = true →
       query_yes_no question default (Console (rejected ++ line :: rest) out)
       = (decision default line,
          Console rest (out ++ refusals (question +:+ prompt) rejected
                            ++ [question +:+ prompt]))
       ∧ ∃ b, decision default line = Answered b)
  ∧ (∀ prompt out,
       Ask.prompt_of default = Some prompt →
       Forall (λ l, decides default l = false) rejected →
       query_yes_no question default (Console rejected out)
       = (EndOfInput,
          Console [] (out ++ refusals (question +:+ prompt) rejected
                          ++ [question +:+ prompt]))).
Proof.
  split; [| split].
  - intros Hp. unfold query_yes_no. by rewrite Hp.
  - intros prompt line rest out Hp Hrej Hline.
    unfold query_yes_no. rewrite Hp. simpl.
    rewrite ask_loop_rejected by exact Hrej. simpl.
    rewrite <- app_assoc. unfold decides in Hline. unfold decision.
    destruct default as [d |].
    + rewrite bool_decide_true in Hline by eauto. simpl in Hline.
      destruct (bool_decide (Ask.lower line = "")) eqn:He.
      * split; [done |]. unfold Ask.prompt_of in Hp. unfold Ask.answer.
        destruct (bool_decide_reflect (d = "yes")) as [-> | _]; [by eauto |].
        destruct (bool_decide_reflect (d = "no")) as [-> | _]; [by eauto |].
        discriminate.
      * simpl in Hline. rewrite Hline. split; [done |].
        apply bool_decide_eq_true in Hline as [b Hb].
        exists b. unfold Ask.answer. by rewrite Hb.
    + simpl in Hline. rewrite Hline. split; [done |].
      apply bool_decide_eq_true in Hline as [b Hb].
      exists b. unfold Ask.answer. by rewrite Hb.
  - intros prompt out Hp Hrej.
    unfold query_yes_no. rewrite Hp. simpl.
    rewrite <- (app_nil_r rejected) at 1.
    rewrite ask_loop_rejected by exact Hrej. simpl. by rewrite <- app_assoc.
Qed.

Lemma query_yes_no_first_valid_line_witness :
  query_yes_no "Proceed ([y]/n)?" (Some "yes")
    (Console ["maybe"; "NO"; "y"] [])
  = (Answered false,
     Console ["y"]
       ["Proceed ([y]/n)? [Y/n] "; Ask.reminder; "Proceed ([y]/n)? [Y/n] "]).
Proof.
  destruct (query_yes_no_first_valid_line "Proceed ([y]/n)?" (Some "yes")
              ["maybe"] (Console [] [])) as (_ & H & _).
  destruct (H " [Y/n] " "NO" ["y"] []) as [Hq _].
  - reflexivity.
  - repeat constructor.
  - reflexivity.
  - exact Hq.
Defined.
